(** * The SQL script splitter of [scripts/sql/trino_queries_flow.py]

    A shallow embedding of [split_sql_queries] and the properties of its
    line-by-line scanner.

    Python [str] values are sequences of Unicode code points: a character
    is its code point, a string the list of its characters.  The loop of
    the source indexes the current line ([line[i]], [line[i + 1]]), so the
    embedding keeps the index and lets an out-of-range access raise
    [IndexError]; that it never does is a theorem, not an assumption. *)

From Stdlib Require Import String Ascii DecimalString DecimalNat.
From Stdlib Require Import List NArith Bool Arith Lia.
From Equations Require Import Equations.
Import ListNotations.

(** ** Characters and strings *)

Definition char := N.
Definition str := list char.

(** An ASCII literal as a Python string. *)
Definition lit (s : string) : str :=
  map N_of_ascii (list_ascii_of_string s).

Definition LF : char := 10%N.
Definition SPACE : char := 32%N.
Definition DQUOTE : char := 34%N.
Definition SQUOTE : char := 39%N.
Definition STAR : char := 42%N.
Definition DASH : char := 45%N.
Definition SLASH : char := 47%N.
Definition SEMI : char := 59%N.

(** [str.isspace] on one character: the code points CPython classifies as
    whitespace, which are the ones [str.strip()] removes. *)
Definition isspace (c : char) : bool :=
  ((9 <=? c) && (c <=? 13) || (28 <=? c) && (c <=? 32)
   || (c =? 133) || (c =? 160) || (c =? 5760)
   || (8192 <=? c) && (c <=? 8202)
   || (c =? 8232) || (c =? 8233) || (c =? 8239) || (c =? 8287)
   || (c =? 12288))%N.

Fixpoint lstrip (s : str) : str :=
  match s with
  | [] => []
  | c :: s' => if isspace c then lstrip s' else s
  end.

Definition rstrip (s : str) : str := rev (lstrip (rev s)).

(** [s.strip()] *)
Definition strip (s : str) : str := rstrip (lstrip s).

(** [s.split(sep)] for a one-character separator: never empty, one more
    piece than there are separators. *)
Fixpoint split_on (sep : char) (s : str) : list str :=
  match s with
  | [] => [[]]
  | c :: s' =>
      if (c =? sep)%N then [] :: split_on sep s'
      else match split_on sep s' with
           | [] => [[c]]
           | p :: ps => (c :: p) :: ps
           end
  end.

(** [sep.join(parts)] *)
Fixpoint join (sep : str) (parts : list str) : str :=
  match parts with
  | [] => []
  | p :: ps =>
      match ps with
      | [] => p
      | _ :: _ => p ++ sep ++ join sep ps
      end
  end.

(** [s.startswith(p)] *)
Fixpoint startswith (p s : str) : bool :=
  match p, s with
  | [], _ => true
  | _ :: _, [] => false
  | a :: p', c :: s' => (a =? c)%N && startswith p' s'
  end.

(** Truth value of a sequence: [bool(s)] is [len(s) != 0]. *)
Definition truthy {A : Type} (s : list A) : bool :=
  match s with [] => false | _ :: _ => true end.

(** ** Exceptions *)

Inductive exn : Type := IndexError.

Inductive result (A : Type) : Type :=
| Ok (a : A)
| Raise (e : exn).
Arguments Ok {A} a.
Arguments Raise {A} e.

Definition bind {A B : Type} (m : result A) (k : A -> result B) : result B :=
  match m with
  | Ok a => k a
  | Raise e => Raise e
  end.

Notation "x <- m ;; k" := (bind m (fun x => k))
  (at level 61, m at next level, right associativity).

(** [line[i]] for a non-negative index. *)
Definition getitem (line : str) (i : nat) : result char :=
  match nth_error line i with
  | Some c => Ok c
  | None => Raise IndexError
  end.

(** ** The scanner state: the local variables of [split_sql_queries] *)

Record state : Type := mkState {
  queries : list str;
  current_query : list str;
  in_string : bool;
  string_char : option char;
  in_comment : bool
}.

Definition initial : state :=
  {| queries := []; current_query := []; in_string := false;
     string_char := None; in_comment := false |}.

Definition set_string (b : bool) (q : option char) (st : state) : state :=
  {| queries := queries st; current_query := current_query st;
     in_string := b; string_char := q; in_comment := in_comment st |}.

Definition set_comment (b : bool) (st : state) : state :=
  {| queries := queries st; current_query := current_query st;
     in_string := in_string st; string_char := string_char st;
     in_comment := b |}.

(** [current_query.append(part)] *)
Definition append_current (part : str) (st : state) : state :=
  {| queries := queries st; current_query := current_query st ++ [part];
     in_string := in_string st; string_char := string_char st;
     in_comment := in_comment st |}.

(** [full_query = ' '.join(current_query).strip()], appended to [queries]
    when it is not empty. *)
Definition full_query (cq : list str) : str := strip (join [SPACE] cq).

Definition emit (cq : list str) (qs : list str) : list str :=
  if truthy (full_query cq) then qs ++ [full_query cq] else qs.

(** The [';'] branch up to [current_query = []]. *)
Definition flush (part : str) (st : state) : state :=
  {| queries := emit (current_query st ++ [part]) (queries st);
     current_query := [];
     in_string := in_string st; string_char := string_char st;
     in_comment := in_comment st |}.

(** ** One iteration of [while i < len(line)] *)

(** How an iteration ends: at the loop test again, with the new [line] and
    [i], or out of the loop by [break]. *)
Inductive flow : Type :=
| Next (st : state) (line : str) (i : nat)
| Break (st : state) (line : str).

Definition is_quote (c : char) : bool := (c =? SQUOTE)%N || (c =? DQUOTE)%N.

Definition same_quote (q : option char) (c : char) : bool :=
  match q with
  | Some d => (c =? d)%N
  | None => false
  end.

(** [char == a and i + 1 < len(line) and line[i + 1] == b], with Python's
    left-to-right short circuit. *)
Definition marker (a b : char) (c : char) (line : str) (i : nat) : result bool :=
  if (c =? a)%N then
    if i + 1 <? length line then
      d <- getitem line (i + 1) ;; Ok (d =? b)%N
    else Ok false
  else Ok false.

Definition loop_body (st : state) (line : str) (i : nat) : result flow :=
  c <- getitem line i ;;
  if is_quote c && negb (in_comment st) then
    if in_string st && same_quote (string_char st) c then
      Ok (Next (set_string false None st) line (i + 1))
    else if negb (in_string st) then
      Ok (Next (set_string true (Some c) st) line (i + 1))
    else Ok (Next st line (i + 1))
  else
    dashes <- marker DASH DASH c line i ;;
    if dashes && negb (in_string st) then
      Ok (Break (set_comment true st) line)
    else
      closing <- marker STAR SLASH c line i ;;
      if closing && negb (in_string st) then
        Ok (Next (set_comment false st) line (i + 1 + 1))
      else
        opening <- marker SLASH STAR c line i ;;
        if opening && negb (in_string st) then
          Ok (Next (set_comment true st) line (i + 1 + 1))
        else if (c =? SEMI)%N && negb (in_string st) && negb (in_comment st) then
          Ok (Next (flush (firstn i line) st) (skipn (i + 1) line) 0)
        else Ok (Next st line (i + 1)).

Definition inspect {A : Type} (x : A) : {y : A | x = y} := exist _ x eq_refl.

(** The [while] loop: the state and the [line] it leaves behind. *)
Equations? while_loop (st : state) (line : str) (i : nat) : result (state * str)
  by wf (length line - i) lt :=
  while_loop st line i with inspect (i <? length line) := {
    | exist _ false _ => Ok (st, line)
    | exist _ true Hi with inspect (loop_body st line i) => {
      | exist _ (Raise e) _ => Raise e
      | exist _ (Ok (Break st' line')) _ => Ok (st', line')
      | exist _ (Ok (Next st' line' i')) Hb => while_loop st' line' i' } }.
Proof.
  (* every iteration that returns to the loop test has brought [i] closer
     to [len(line)] *)
  apply Nat.ltb_lt in Hi. clear while_loop. revert Hb.
  unfold loop_body, marker, bind.
  destruct (getitem line i) as [c|e']; [|discriminate].
  repeat match goal with
    | |- context [getitem line (i + 1)] => destruct (getitem line (i + 1))
    | |- context [if ?b then _ else _] => destruct b
    end;
    intros H; inversion H; subst; rewrite ?length_skipn; lia.
Qed.

(** ** The body of [for line in sql_content.split('\n')] *)

Definition for_body (st : state) (raw : str) : result state :=
  let line := strip raw in
  if negb (truthy line) then Ok st
  else if startswith [DASH; DASH] line then Ok st
  else
    r <- while_loop st line 0 ;;
    if negb (in_comment (fst r)) then Ok (append_current (snd r) (fst r))
    else Ok (fst r).

Fixpoint for_each (st : state) (lines : list str) : result state :=
  match lines with
  | [] => Ok st
  | raw :: lines' => st' <- for_body st raw ;; for_each st' lines'
  end.

(** The statements after the loop: the last query, if anything is left. *)
Definition finish (st : state) : list str :=
  if truthy (current_query st) && negb (in_comment st) then
    emit (current_query st) (queries st)
  else queries st.

Definition split_sql_queries (sql_content : str) : result (list str) :=
  st <- for_each initial (split_on LF sql_content) ;;
  Ok (finish st).

(** ** The loop by recursion on the unread part of the line

    [done] is [line[:i]] and [rest] is [line[i:]]; the pair returned is the
    state and the [line] left after the loop.  [while_loop_scan] below
    shows that this is what [while_loop] computes. *)

Definition quote_step (c : char) (st : state) : state :=
  if in_string st && same_quote (string_char st) c then set_string false None st
  else if negb (in_string st) then set_string true (Some c) st
  else st.

Definition semi_here (c : char) (st : state) : bool :=
  (c =? SEMI)%N && negb (in_string st) && negb (in_comment st).

Definition pair_here (a b : char) (c : char) (rest : str) : bool :=
  match rest with
  | [] => false
  | d :: _ => (c =? a)%N && (d =? b)%N
  end.

Fixpoint scan (st : state) (done rest : str) : state * str :=
  match rest with
  | [] => (st, done)
  | c :: rest' =>
      if is_quote c && negb (in_comment st) then
        scan (quote_step c st) (done ++ [c]) rest'
      else if pair_here DASH DASH c rest' && negb (in_string st) then
        (set_comment true st, done ++ rest)
      else if pair_here STAR SLASH c rest' && negb (in_string st) then
        match rest' with
        | [] => (st, done ++ rest)
        | d :: rest'' => scan (set_comment false st) (done ++ [c; d]) rest''
        end
      else if pair_here SLASH STAR c rest' && negb (in_string st) then
        match rest' with
        | [] => (st, done ++ rest)
        | d :: rest'' => scan (set_comment true st) (done ++ [c; d]) rest''
        end
      else if semi_here c st then scan (flush done st) [] rest'
      else scan st (done ++ [c]) rest'
  end.

(** ** The run of the whole function, without the exception monad

    [for_body] with [scan] in the place of [while_loop]; [for_body_step]
    and [for_each_run] below show that nothing is lost. *)

Definition step_line (st : state) (raw : str) : state :=
  let line := strip raw in
  if negb (truthy line) then st
  else if startswith [DASH; DASH] line then st
  else
    let r := scan st [] line in
    if negb (in_comment (fst r)) then append_current (snd r) (fst r)
    else fst r.

(** The state after the [for] loop. *)
Definition run (sql_content : str) : state :=
  fold_left step_line (split_on LF sql_content) initial.

(** ** Configurations the loop passes through *)

(** [reaches st line i st' line' i']: started at the loop test with
    [st], [line] and [i], the loop comes to the loop test with [st'],
    [line'] and [i']. *)
Inductive reaches : state -> str -> nat -> state -> str -> nat -> Prop :=
| reaches_here st line i : reaches st line i st line i
| reaches_next st line i st1 line1 i1 st2 line2 i2 :
    i < length line ->
    loop_body st line i = Ok (Next st1 line1 i1) ->
    reaches st1 line1 i1 st2 line2 i2 ->
    reaches st line i st2 line2 i2.


(** The input ends inside a quote or inside a comment. *)
Definition ends_unterminated (sql_content : str) : Prop :=
  in_string (run sql_content) = true \/ in_comment (run sql_content) = true.

(** ** Predicates on text *)

Definition starts_with_space (s : str) : bool :=
  match s with
  | [] => false
  | c :: _ => isspace c
  end.

Definition ends_with_space (s : str) : bool := starts_with_space (rev s).

(** A non-empty string that [strip] would leave alone. *)
Definition trimmed (q : str) : Prop :=
  q <> [] /\ starts_with_space q = false /\ ends_with_space q = false.

(** No two adjacent characters [a], [b]. *)
Fixpoint no_pair (a b : char) (s : str) : bool :=
  match s with
  | [] => true
  | c :: t => negb (pair_here a b c t) && no_pair a b t
  end.

(** Neither [--], nor [*/], nor [/*]. *)
Definition no_markers (s : str) : bool :=
  no_pair DASH DASH s && no_pair STAR SLASH s && no_pair SLASH STAR s.

(** The character [a] does not occur. *)
Definition no_char (a : char) (s : str) : bool :=
  forallb (fun c => negb (c =? a)%N) s.

(** Neither ['] nor the double quote occurs. *)
Definition no_quotes (s : str) : bool :=
  forallb (fun c => negb (is_quote c)) s.

(** The characters the markers are made of. *)
Definition marker_char (c : char) : bool :=
  (c =? DASH)%N || (c =? STAR)%N || (c =? SLASH)%N.

Definition starts_marker (s : str) : bool :=
  match s with
  | [] => false
  | d :: _ => marker_char d
  end.

(** ** The naive split *)

(** The reference the specification compares the scanner with, after its
    words: split on [;], trim each piece, drop the empty ones. *)
Definition split_trim_drop (s : str) : list str :=
  filter truthy (map strip (split_on SEMI s)).

(** ** The statement under construction *)

(** The text of the statement under construction when [part] is what the
    current line gives to it. *)
Definition buffer (st : state) (part : str) : str :=
  join [SPACE] (current_query st ++ [part]).

(** ** Counting and the characters of a text *)

(** [s.count(a)] for a one-character [a]. *)
Definition count_char (a : char) (s : str) : nat :=
  length (filter (N.eqb a) s).

(** Every character of every statement passes the test [ok]. *)
Definition statements_of (ok : char -> bool) (qs : list str) : Prop :=
  Forall (fun q => forallb ok q = true) qs.

(** The same of what the scanner holds: the statements emitted and the
    parts of the statement under construction. *)
Definition chars_ok (ok : char -> bool) (st : state) : Prop :=
  statements_of ok (queries st) /\ statements_of ok (current_query st).

(** ** Lines the loop passes over *)

(** The two [continue] of the [for] loop: the line is empty once
    stripped, or it starts with [--]. *)
Definition skipped (raw : str) : bool :=
  negb (truthy (strip raw)) || startswith [DASH; DASH] (strip raw).

(** A list of lines, none of which holds a newline. *)
Definition lines_ok (ls : list str) : Prop :=
  Forall (fun l => no_char LF l = true) ls.

(** ** The flags of the scanner *)

(** [in_string] and [in_comment] are never set together, and
    [string_char] is the opening quote exactly while [in_string] is set. *)
Definition flags_ok (st : state) : Prop :=
  (in_string st = true -> in_comment st = false)
  /\ (in_string st = true ->
      exists q, string_char st = Some q /\ is_quote q = true)
  /\ (in_string st = false -> string_char st = None).

(** ** Between two statements *)

(** The scanner is outside literals and comments and the statement under
    construction holds no text yet (after a line that ends with a
    delimiter, [current_query] is the list of one empty string). *)
Definition at_rest (st : state) : Prop :=
  in_string st = false /\ in_comment st = false
  /\ Forall (fun p => p = []) (current_query st).

(** [st1] is [st2] with the statements [Q] emitted before, and empty
    strings before the parts of the statement under construction. *)
Definition ahead_by (Q : list str) (st1 st2 : state) : Prop :=
  queries st1 = Q ++ queries st2
  /\ in_string st1 = in_string st2
  /\ string_char st1 = string_char st2
  /\ in_comment st1 = in_comment st2
  /\ exists blanks, Forall (fun p => p = []) blanks
                    /\ current_query st1 = blanks ++ current_query st2.

(** ** The lines of a text joined

    What the scanner makes of the line structure of a text: each line
    stripped, the empty ones left out, the others joined with single
    spaces. *)
Definition join_lines (s : str) : str :=
  join [SPACE] (filter truthy (map strip (split_on LF s))).

(** The reference of the specification (split on [;], trim each piece,
    drop the empty ones) on the joined lines. *)
Definition split_joined (s : str) : list str :=
  split_trim_drop (join_lines s).

(** While a line of plain text is scanned, [V] being the joined text read
    so far: the statements emitted are the pieces of [V] before its last
    [;], trimmed, without the empty ones, and the statement under
    construction is the piece after it. *)
Definition plain_ok (V : str) (st : state) (done : str) : Prop :=
  in_string st = false /\ in_comment st = false
  /\ exists ps, split_on SEMI V = ps ++ [buffer st done]
                /\ queries st = filter truthy (map strip ps).

(** The same between two lines, [T] being the lines kept so far. *)
Definition plain_lines_ok (T : list str) (st : state) : Prop :=
  in_string st = false /\ in_comment st = false
  /\ (T = [] -> current_query st = [])
  /\ (T <> [] -> current_query st <> [])
  /\ exists ps, split_on SEMI (join [SPACE] T)
                = ps ++ [join [SPACE] (current_query st)]
                /\ queries st = filter truthy (map strip ps).

(** ** A text read on its own

    The flags the scanner has after a text on one line, started with
    [in_string = b], [string_char = q] and [in_comment = k]; [None] when
    the text holds a [;] outside its literals and comments, or a [--]
    outside its literals. *)
Fixpoint flag_scan (b : bool) (q : option char) (k : bool) (s : str)
  : option (bool * option char * bool) :=
  match s with
  | [] => Some (b, q, k)
  | c :: s' =>
      if is_quote c && negb k then
        if b && same_quote q c then flag_scan false None k s'
        else if negb b then flag_scan true (Some c) k s'
        else flag_scan b q k s'
      else if pair_here DASH DASH c s' && negb b then None
      else if pair_here STAR SLASH c s' && negb b then
        match s' with
        | [] => Some (b, q, k)
        | _ :: s'' => flag_scan b q false s''
        end
      else if pair_here SLASH STAR c s' && negb b then
        match s' with
        | [] => Some (b, q, k)
        | _ :: s'' => flag_scan b q true s''
        end
      else if (c =? SEMI)%N && negb b && negb k then None
      else flag_scan b q k s'
  end.

(** A text that stands on its own: read from outside any literal or
    comment it ends outside any literal or comment, every literal and
    block comment it opens being closed in it, and it holds no [;]
    outside its literals and comments and no [--] outside its
    literals. *)
Definition self_contained (s : str) : bool :=
  match flag_scan false None false s with
  | Some (false, None, false) => true
  | _ => false
  end.

(** ** The caller: [run_trino_queries] of [main.py]

    The function reads the script, splits it and submits the statements
    one by one.  What it does to the outside (the file it opens, the
    calls of [execute_trino_query], the files it saves, the lines it
    logs) is kept as a list of actions.  What the outside answers is not
    the function's to decide: it is given by [outside], each answer
    depending on everything that has happened before. *)

(** What a call can raise.  [except Exception] catches the first kind and
    lets the second through ([KeyboardInterrupt], [SystemExit]); [msg] is
    [str(e)]. *)
Inductive raised : Type :=
| Exception (msg : str)
| BaseException (msg : str).

Inductive outcome (A : Type) : Type :=
| Returned (a : A)
| Raised (e : raised).
Arguments Returned {A} a.
Arguments Raised {A} e.

(** The connection arguments, passed on as they are. *)
Record connection : Type := mkConnection {
  host : str;
  port : Z;
  user : str;
  catalog : str;
  schema : str
}.

Inductive log_level : Type := INFO | ERROR.

Inductive action (DataFrame : Type) : Type :=
| Logged (level : log_level) (msg : str)
| Opened (path : str) (r : outcome str)
| Executed (c : connection) (sql_query : str) (r : outcome DataFrame)
| Saved (results_df : DataFrame) (path : str) (r : outcome unit).
Arguments Logged {DataFrame} level msg.
Arguments Opened {DataFrame} path r.
Arguments Executed {DataFrame} c sql_query r.
Arguments Saved {DataFrame} results_df path r.

(** The answers of the outside, given what has happened so far:
    [open(path).read()], [execute_trino_query(...)] and
    [results_df.to_csv(path, index=False)]. *)
Record outside (DataFrame : Type) : Type := mkOutside {
  open_read : list (action DataFrame) -> str -> outcome str;
  execute_trino_query :
    list (action DataFrame) -> connection -> str -> outcome DataFrame;
  to_csv : list (action DataFrame) -> DataFrame -> str -> outcome unit
}.
Arguments open_read {DataFrame} o tr path.
Arguments execute_trino_query {DataFrame} o tr c sql_query.
Arguments to_csv {DataFrame} o tr results_df path.

(** [str(i)] in an f-string, for a count. *)
Definition str_of_nat (n : nat) : str :=
  lit (NilEmpty.string_of_uint (Nat.to_uint n)).

(** [s.endswith(a)] for a one-character [a]. *)
Definition endswith_char (a : char) (s : str) : bool :=
  match rev s with
  | [] => false
  | c :: _ => (c =? a)%N
  end.

(** [os.path.join(a, b)] on POSIX. *)
Definition path_join (a b : str) : str :=
  if startswith [SLASH] b then b
  else if negb (truthy a) || endswith_char SLASH a then a ++ b
  else a ++ SLASH :: b.

(** [os.path.join(output_dir, f"query_result_{i}.csv")] *)
Definition output_file (output_dir : str) (i : nat) : str :=
  path_join output_dir (lit "query_result_" ++ str_of_nat i ++ lit ".csv").

(** [os.path.join(output_dir, "final_query_result.csv")] *)
Definition final_output (output_dir : str) : str :=
  path_join output_dir (lit "final_query_result.csv").

(** The path written in the source, whatever [query_file] is. *)
Definition queries_sql : str :=
  lit "/home/cortica/2nd_degree/work_search_projects/spotify_project_py/scripts/sql/queries.sql".

(** The [except Exception as e] clause: the error is logged and the loop
    goes on; anything else leaves the function. *)
Definition caught (DataFrame : Type) (i : nat) (e : raised)
  : list (action DataFrame) * option raised :=
  match e with
  | Exception msg =>
      ([Logged ERROR
          (lit "Error executing Query " ++ str_of_nat i ++ lit ": " ++ msg)],
       None)
  | BaseException _ => ([], Some e)
  end.

(** One iteration of [for i, query in enumerate(queries, 1)]: the actions
    it adds after [tr], the new [last_result], and what leaves the
    function uncaught, if anything.  [n] is [len(queries)]. *)
Definition run_query {DataFrame : Type} (env : outside DataFrame)
  (c : connection) (output_dir : str) (n i : nat) (query : str)
  (tr : list (action DataFrame)) (last_result : option DataFrame)
  : list (action DataFrame) * option DataFrame * option raised :=
  let a1 :=
    [Logged INFO
       (lit "Executing Query " ++ str_of_nat i ++ lit ":" ++ LF :: query)] in
  let r := execute_trino_query env (tr ++ a1) c query in
  let a2 := a1 ++ [Executed c query r] in
  match r with
  | Raised e => (a2 ++ fst (caught DataFrame i e), last_result, snd (caught DataFrame i e))
  | Returned results_df =>
      let a3 :=
        a2 ++ [Logged INFO
                 (lit "Query " ++ str_of_nat i ++ lit " executed successfully")] in
      let w := to_csv env (tr ++ a3) results_df (output_file output_dir i) in
      let a4 := a3 ++ [Saved results_df (output_file output_dir i) w] in
      match w with
      | Raised e => (a4 ++ fst (caught DataFrame i e), last_result, snd (caught DataFrame i e))
      | Returned _ =>
          let a5 :=
            a4 ++ [Logged INFO
                     (lit "Results saved to " ++ output_file output_dir i)] in
          if i =? n then
            let w' := to_csv env (tr ++ a5) results_df (final_output output_dir) in
            let a6 := a5 ++ [Saved results_df (final_output output_dir) w'] in
            match w' with
            | Raised e =>
                (a6 ++ fst (caught DataFrame i e), Some results_df, snd (caught DataFrame i e))
            | Returned _ =>
                (a6 ++ [Logged INFO
                          (lit "Final query result saved to "
                           ++ final_output output_dir)],
                 Some results_df, None)
            end
          else (a5, Some results_df, None)
      end
  end.

(** The [for] loop from [i] on: the actions it adds after [tr], and what
    the function returns or lets through. *)
Fixpoint query_loop {DataFrame : Type} (env : outside DataFrame)
  (c : connection) (output_dir : str) (n i : nat) (queries : list str)
  (tr : list (action DataFrame)) (last_result : option DataFrame)
  : list (action DataFrame) * outcome (option DataFrame) :=
  match queries with
  | [] => ([], Returned last_result)
  | query :: queries' =>
      match run_query env c output_dir n i query tr last_result with
      | (new, _, Some e) => (new, Raised e)
      | (new, last_result', None) =>
          let rest :=
            query_loop env c output_dir n (S i) queries' (tr ++ new)
              last_result' in
          (new ++ fst rest, snd rest)
      end
  end.

(** [run_trino_queries(query_file, host, port, user, catalog, schema,
    output_dir)], called after [tr]: the actions it adds, and
    [last_result] or what it lets through.  The script is opened and
    split outside any [try]. *)
Definition run_trino_queries {DataFrame : Type} (env : outside DataFrame)
  (query_file : str) (c : connection) (output_dir : str)
  (tr : list (action DataFrame))
  : list (action DataFrame) * outcome (option DataFrame) :=
  let r := open_read env tr queries_sql in
  let a0 := [Opened queries_sql r] in
  match r with
  | Raised e => (a0, Raised e)
  | Returned sql_content =>
      match split_sql_queries sql_content with
      | Raise IndexError =>
          (a0, Raised (Exception (lit "string index out of range")))
      | Ok queries =>
          let rest :=
            query_loop env c output_dir (length queries) 1 queries
              (tr ++ a0) None in
          (a0 ++ fst rest, snd rest)
      end
  end.

(** The statements submitted, in order. *)
Fixpoint executed {DataFrame : Type} (tr : list (action DataFrame)) : list str :=
  match tr with
  | [] => []
  | Executed _ sql_query _ :: tr' => sql_query :: executed tr'
  | _ :: tr' => executed tr'
  end.

(** The paths [to_csv] was called with, in order. *)
Fixpoint saved_paths {DataFrame : Type} (tr : list (action DataFrame)) : list str :=
  match tr with
  | [] => []
  | Saved _ path _ :: tr' => path :: saved_paths tr'
  | _ :: tr' => saved_paths tr'
  end.

(** The frame of the last [to_csv] that returned, [before] if none did. *)
Fixpoint last_saved {DataFrame : Type} (tr : list (action DataFrame))
  (before : option DataFrame) : option DataFrame :=
  match tr with
  | [] => before
  | Saved results_df _ (Returned _) :: tr' => last_saved tr' (Some results_df)
  | _ :: tr' => last_saved tr' before
  end.

(** Nothing is submitted and nothing is saved in [tr]. *)
Definition quiet {DataFrame : Type} (tr : list (action DataFrame)) : Prop :=
  executed tr = [] /\ saved_paths tr = [].

(** Nothing but instances of [Exception] is ever raised by the engine or
    by a save. *)
Definition only_exceptions {DataFrame : Type} (env : outside DataFrame) : Prop :=
  (forall tr c q msg, execute_trino_query env tr c q <> Raised (BaseException msg))
  /\ (forall tr df p msg, to_csv env tr df p <> Raised (BaseException msg)).

(** An outside to try the runner on: the script holds three statements,
    the engine rejects the second one and the last one, frames are
    numbers, every save returns. *)
Definition str_eqb (a b : str) : bool :=
  (length a =? length b) && forallb (fun p => (fst p =? snd p)%N) (combine a b).

Definition sample_outside : outside nat :=
  {| open_read := fun _ _ => Returned (lit "SELECT 1; DROP t; SELECT 3;");
     execute_trino_query := fun _ _ q =>
       if str_eqb q (lit "SELECT 1") then Returned 1
       else Raised (Exception (lit "rejected"));
     to_csv := fun _ _ _ => Returned tt |}.

Definition sample_connection : connection :=
  {| host := lit "localhost"; port := Zpos 8080; user := lit "trino";
     catalog := lit "hive"; schema := lit "default" |}.

(** A second outside: only [DROP t] is rejected, and the frame of a
    statement is its length. *)
Definition accepting_outside : outside nat :=
  {| open_read := fun _ _ => Returned (lit "SELECT 1; DROP t; SELECT 3;");
     execute_trino_query := fun _ _ q =>
       if str_eqb q (lit "DROP t") then Raised (Exception (lit "rejected"))
       else Returned (length q);
     to_csv := fun _ _ _ => Returned tt |}.

(** ** [main] of [trino_queries_flow.py], from [parse_args] on

    [args] is what [parse_args] returned.  [print] and the logger are
    taken not to raise; [all_results], which is appended to and never
    read, is left out. *)

Record arguments : Type := mkArguments {
  args_connection : connection;
  args_query : option str;
  args_query_file : option str;
  args_output : option str
}.

(** What the command-line [main] does to the outside; the query is
    [None] when [--query-file] was given an empty name. *)
Inductive cli_action (DataFrame : Type) : Type :=
| Printed (msg : str)
| CliOpened (path : str) (r : outcome str)
| CliExecuted (c : connection) (sql_query : option str) (r : outcome DataFrame)
| CliSaved (results_df : DataFrame) (path : str) (r : outcome unit).
Arguments Printed {DataFrame} msg.
Arguments CliOpened {DataFrame} path r.
Arguments CliExecuted {DataFrame} c sql_query r.
Arguments CliSaved {DataFrame} results_df path r.

Record cli_outside (DataFrame : Type) : Type := mkCliOutside {
  cli_open_read : list (cli_action DataFrame) -> str -> outcome str;
  cli_execute_trino_query :
    list (cli_action DataFrame) -> connection -> option str -> outcome DataFrame;
  cli_to_csv : list (cli_action DataFrame) -> DataFrame -> str -> outcome unit;
  (** [str(results_df)] *)
  frame_str : DataFrame -> str
}.
Arguments cli_open_read {DataFrame} c tr path.
Arguments cli_execute_trino_query {DataFrame} c tr c0 sql_query.
Arguments cli_to_csv {DataFrame} c tr results_df path.
Arguments frame_str {DataFrame} c results_df.

(** Truth value of an optional string: [None] and the empty string are
    false. *)
Definition truthy_opt (o : option str) : bool :=
  match o with
  | Some s => truthy s
  | None => false
  end.

(** [str(x)] in an f-string for a string or [None]. *)
Definition str_of_opt (o : option str) : str :=
  match o with
  | Some s => s
  | None => lit "None"
  end.

(** [f"{args.output}_{i}.csv" if len(queries) > 1 else args.output] *)
Definition cli_output_file (output : str) (n i : nat) : str :=
  if 1 <? n then output ++ lit "_" ++ str_of_nat i ++ lit ".csv" else output.

Definition cli_caught (DataFrame : Type) (i : nat) (e : raised)
  : list (cli_action DataFrame) * option raised :=
  match e with
  | Exception msg =>
      ([Printed
          (lit "Error executing Query " ++ str_of_nat i ++ lit ": " ++ msg)],
       None)
  | BaseException _ => ([], Some e)
  end.

(** One iteration of the loop of [main]. *)
Definition cli_run_query {DataFrame : Type} (env : cli_outside DataFrame)
  (args : arguments) (n i : nat) (query : option str)
  (tr : list (cli_action DataFrame))
  : list (cli_action DataFrame) * option raised :=
  let a1 :=
    [Printed
       (LF :: lit "Executing Query " ++ str_of_nat i ++ lit ":"
        ++ LF :: str_of_opt query ++ [LF])] in
  let r := cli_execute_trino_query env (tr ++ a1) (args_connection args) query in
  let a2 := a1 ++ [CliExecuted (args_connection args) query r] in
  match r with
  | Raised e => (a2 ++ fst (cli_caught DataFrame i e),
                 snd (cli_caught DataFrame i e))
  | Returned results_df =>
      let a3 :=
        a2 ++ [Printed (lit "Results for Query " ++ str_of_nat i ++ lit ":");
               Printed (frame_str env results_df)] in
      if truthy_opt (args_output args) then
        let output_file := cli_output_file (str_of_opt (args_output args)) n i in
        let w := cli_to_csv env (tr ++ a3) results_df output_file in
        let a4 := a3 ++ [CliSaved results_df output_file w] in
        match w with
        | Raised e => (a4 ++ fst (cli_caught DataFrame i e),
                       snd (cli_caught DataFrame i e))
        | Returned _ =>
            (a4 ++ [Printed (lit "Results saved to " ++ output_file)], None)
        end
      else (a3, None)
  end.

Fixpoint cli_query_loop {DataFrame : Type} (env : cli_outside DataFrame)
  (args : arguments) (n i : nat) (queries : list (option str))
  (tr : list (cli_action DataFrame))
  : list (cli_action DataFrame) * outcome unit :=
  match queries with
  | [] => ([], Returned tt)
  | query :: queries' =>
      match cli_run_query env args n i query tr with
      | (new, Some e) => (new, Raised e)
      | (new, None) =>
          let rest := cli_query_loop env args n (S i) queries' (tr ++ new) in
          (new ++ fst rest, snd rest)
      end
  end.

(** [main()] once the arguments are parsed. *)
Definition cli_main {DataFrame : Type} (env : cli_outside DataFrame)
  (args : arguments) (tr : list (cli_action DataFrame))
  : list (cli_action DataFrame) * outcome unit :=
  if truthy_opt (args_query_file args) then
    let path := str_of_opt (args_query_file args) in
    let r := cli_open_read env tr path in
    let a0 := [CliOpened path r] in
    match r with
    | Raised e => (a0, Raised e)
    | Returned sql_content =>
        match split_sql_queries sql_content with
        | Raise IndexError =>
            (a0, Raised (Exception (lit "string index out of range")))
        | Ok queries =>
            let rest :=
              cli_query_loop env args (length queries) 1 (map Some queries)
                (tr ++ a0) in
            (a0 ++ fst rest, snd rest)
        end
    end
  else cli_query_loop env args 1 1 [args_query args] tr.

Fixpoint cli_executed {DataFrame : Type} (tr : list (cli_action DataFrame))
  : list (option str) :=
  match tr with
  | [] => []
  | CliExecuted _ sql_query _ :: tr' => sql_query :: cli_executed tr'
  | _ :: tr' => cli_executed tr'
  end.

Fixpoint cli_saved_paths {DataFrame : Type} (tr : list (cli_action DataFrame))
  : list str :=
  match tr with
  | [] => []
  | CliSaved _ path _ :: tr' => path :: cli_saved_paths tr'
  | _ :: tr' => cli_saved_paths tr'
  end.

(** An outside for the command line: the file holds two statements, the
    engine rejects [DROP t], and the frame of a query is the length of
    its text. *)
Definition sample_cli_outside : cli_outside nat :=
  {| cli_open_read := fun _ _ => Returned (lit "SELECT 1; DROP t; SELECT 3;");
     cli_execute_trino_query := fun _ _ q =>
       match q with
       | Some s =>
           if str_eqb s (lit "DROP t")
           then Raised (Exception (lit "rejected"))
           else Returned (length s)
       | None => Raised (Exception (lit "no query"))
       end;
     cli_to_csv := fun _ _ _ => Returned tt;
     frame_str := str_of_nat |}.

(** [--query-file q.sql --output out] *)
Definition sample_file_arguments : arguments :=
  {| args_connection := sample_connection; args_query := None;
     args_query_file := Some (lit "q.sql"); args_output := Some (lit "out") |}.

(** [--query "SELECT 1; SELECT 2" --output out.csv] *)
Definition sample_query_arguments : arguments :=
  {| args_connection := sample_connection;
     args_query := Some (lit "SELECT 1; SELECT 2");
     args_query_file := None; args_output := Some (lit "out.csv") |}.

(** ** [execute_trino_query]

    The client library is outside: each of its calls is an oracle of the
    calls made so far.  [try: ... finally: conn.close()] runs [close]
    however the body ends, and an exception of [close] replaces the
    outcome of the body. *)

Module Trino.

Inductive call (Rows : Type) : Type :=
| Connect (c : connection) (r : outcome unit)
| Cursor (r : outcome unit)
| Execute (sql_query : option str) (r : outcome unit)
| Fetchall (r : outcome Rows)
| Close (r : outcome unit).
Arguments Connect {Rows} c r.
Arguments Cursor {Rows} r.
Arguments Execute {Rows} sql_query r.
Arguments Fetchall {Rows} r.
Arguments Close {Rows} r.

Record client (Rows Column DataFrame : Type) : Type := mkClient {
  (** [trino.dbapi.connect(...)] *)
  connect : list (call Rows) -> connection -> outcome unit;
  (** [conn.cursor()] *)
  cursor : list (call Rows) -> outcome unit;
  (** [cursor.execute(sql_query)] *)
  execute : list (call Rows) -> option str -> outcome unit;
  (** [cursor.fetchall()] *)
  fetchall : list (call Rows) -> outcome Rows;
  (** [cursor.description]: [None] or a list *)
  description : list (call Rows) -> option (list Column);
  (** [desc[0]] *)
  name_of : Column -> outcome str;
  (** [pd.DataFrame(rows, columns=column_names)] *)
  DataFrame_of : Rows -> list str -> outcome DataFrame;
  (** [pd.DataFrame()] *)
  DataFrame_empty : DataFrame;
  (** [conn.close()] *)
  close : list (call Rows) -> outcome unit
}.
Arguments connect {Rows Column DataFrame} c tr c0.
Arguments cursor {Rows Column DataFrame} c tr.
Arguments execute {Rows Column DataFrame} c tr sql_query.
Arguments fetchall {Rows Column DataFrame} c tr.
Arguments description {Rows Column DataFrame} c tr.
Arguments name_of {Rows Column DataFrame} c desc.
Arguments DataFrame_of {Rows Column DataFrame} c rows column_names.
Arguments DataFrame_empty {Rows Column DataFrame} c.
Arguments close {Rows Column DataFrame} c tr.

(** [[desc[0] for desc in cursor.description]] *)
Fixpoint column_names {Rows Column DataFrame : Type}
  (env : client Rows Column DataFrame) (descs : list Column)
  : outcome (list str) :=
  match descs with
  | [] => Returned []
  | desc :: descs' =>
      match name_of env desc with
      | Raised e => Raised e
      | Returned name =>
          match column_names env descs' with
          | Raised e => Raised e
          | Returned names => Returned (name :: names)
          end
      end
  end.

(** The body of the [try]. *)
Definition try_body {Rows Column DataFrame : Type}
  (env : client Rows Column DataFrame) (tr : list (call Rows))
  (sql_query : option str) : list (call Rows) * outcome DataFrame :=
  let e := execute env tr sql_query in
  let a1 := [Execute sql_query e] in
  match e with
  | Raised x => (a1, Raised x)
  | Returned _ =>
      let f := fetchall env (tr ++ a1) in
      let a2 := a1 ++ [Fetchall f] in
      match f with
      | Raised x => (a2, Raised x)
      | Returned rows =>
          match description env (tr ++ a2) with
          | Some (desc :: descs) =>
              match column_names env (desc :: descs) with
              | Raised x => (a2, Raised x)
              | Returned names => (a2, DataFrame_of env rows names)
              end
          | _ => (a2, Returned (DataFrame_empty env))
          end
      end
  end.

Definition execute_trino_query {Rows Column DataFrame : Type}
  (env : client Rows Column DataFrame) (tr : list (call Rows))
  (c : connection) (sql_query : option str)
  : list (call Rows) * outcome DataFrame :=
  let r0 := connect env tr c in
  let a0 := [Connect c r0] in
  match r0 with
  | Raised x => (a0, Raised x)
  | Returned _ =>
      let r1 := cursor env (tr ++ a0) in
      let a1 := a0 ++ [Cursor r1] in
      match r1 with
      | Raised x => (a1, Raised x)
      | Returned _ =>
          let b := try_body env (tr ++ a1) sql_query in
          let a2 := a1 ++ fst b in
          let cl := close env (tr ++ a2) in
          let a3 := a2 ++ [Close cl] in
          match cl with
          | Raised x => (a3, Raised x)
          | Returned _ => (a3, snd b)
          end
      end
  end.

(** How many times [conn.close()] was called. *)
Fixpoint closes {Rows : Type} (tr : list (call Rows)) : nat :=
  match tr with
  | [] => 0
  | Close _ :: tr' => S (closes tr')
  | _ :: tr' => closes tr'
  end.

(** Did [trino.dbapi.connect] hand out a connection. *)
Fixpoint connected {Rows : Type} (tr : list (call Rows)) : bool :=
  match tr with
  | [] => false
  | Connect _ (Returned _) :: _ => true
  | _ :: tr' => connected tr'
  end.

(** Did [conn.cursor()] hand out a cursor. *)
Fixpoint has_cursor {Rows : Type} (tr : list (call Rows)) : bool :=
  match tr with
  | [] => false
  | Cursor (Returned _) :: _ => true
  | _ :: tr' => has_cursor tr'
  end.

(** A client whose calls all succeed, with one column. *)
Definition sample_client : client nat str nat :=
  {| connect := fun _ _ => Returned tt;
     cursor := fun _ => Returned tt;
     execute := fun _ _ => Returned tt;
     fetchall := fun _ => Returned 3;
     description := fun _ => Some [lit "n"];
     name_of := fun desc => Returned desc;
     DataFrame_of := fun rows names => Returned (rows + length names);
     DataFrame_empty := 0;
     close := fun _ => Returned tt |}.

(** A client that connects and then fails to make a cursor. *)
Definition cursorless_client : client nat str nat :=
  {| connect := fun _ _ => Returned tt;
     cursor := fun _ => Raised (Exception (lit "no cursor"));
     execute := fun _ _ => Returned tt;
     fetchall := fun _ => Returned 3;
     description := fun _ => None;
     name_of := fun desc => Returned desc;
     DataFrame_of := fun rows names => Returned (rows + length names);
     DataFrame_empty := 0;
     close := fun _ => Returned tt |}.

End Trino.

(** * Properties *)

Lemma while_loop_step st line i :
  while_loop st line i =
  if i <? length line then
    match loop_body st line i with
    | Raise e => Raise e
    | Ok (Break st' line') => Ok (st', line')
    | Ok (Next st' line' i') => while_loop st' line' i'
    end
  else Ok (st, line).
Proof.
  funelim (while_loop st line i); try rewrite <- Heqcall;
    repeat match goal with E : ?x = _ |- context [?x] => rewrite E end;
    reflexivity.
Qed.

Lemma getitem_here (done : str) c rest :
  getitem (done ++ c :: rest) (length done) = Ok c.
Proof.
  unfold getitem. rewrite nth_error_app2 by lia.
  rewrite Nat.sub_diag. reflexivity.
Qed.

Lemma marker_here a b c (done : str) rest :
  marker a b c (done ++ c :: rest) (length done) = Ok (pair_here a b c rest).
Proof.
  unfold marker, pair_here.
  destruct rest as [|d rest].
  - destruct (c =? a)%N; [|reflexivity].
    replace (length done + 1 <? length (done ++ [c])) with false; [reflexivity|].
    symmetry. apply Nat.ltb_ge. rewrite length_app. simpl. lia.
  - destruct (c =? a)%N; [|reflexivity].
    replace (length done + 1 <? length (done ++ c :: d :: rest)) with true.
    + replace (done ++ c :: d :: rest) with ((done ++ [c]) ++ d :: rest)
        by (rewrite <- app_assoc; reflexivity).
      replace (length done + 1) with (length (done ++ [c]))
        by (rewrite length_app; reflexivity).
      rewrite getitem_here. reflexivity.
    + symmetry. apply Nat.ltb_lt. rewrite length_app. simpl. lia.
Qed.

Lemma while_loop_scan_aux n : forall st done rest,
  length rest <= n ->
  while_loop st (done ++ rest) (length done) = Ok (scan st done rest).
Proof.
  induction n as [|n IH]; intros st done rest Hn.
  - destruct rest; [|simpl in Hn; lia].
    rewrite while_loop_step, app_nil_r, Nat.ltb_irrefl. reflexivity.
  - destruct rest as [|c rest].
    { rewrite while_loop_step, app_nil_r, Nat.ltb_irrefl. reflexivity. }
    simpl in Hn.
    assert (Hstep : forall st', while_loop st' (done ++ c :: rest) (length done + 1)
                         = Ok (scan st' (done ++ [c]) rest)).
    { intros st'. replace (done ++ c :: rest) with ((done ++ [c]) ++ rest)
        by (rewrite <- app_assoc; reflexivity).
      replace (length done + 1) with (length (done ++ [c]))
        by (rewrite length_app; reflexivity).
      apply IH. lia. }
    rewrite while_loop_step.
    replace (length done <? length (done ++ c :: rest)) with true
      by (symmetry; apply Nat.ltb_lt; rewrite length_app; simpl; lia).
    unfold loop_body. rewrite getitem_here. cbn [bind].
    rewrite !marker_here. cbn [bind scan].
    destruct (is_quote c && negb (in_comment st)).
    { unfold quote_step.
      destruct (in_string st && same_quote (string_char st) c); [apply Hstep|].
      destruct (negb (in_string st)); apply Hstep. }
    destruct (pair_here DASH DASH c rest && negb (in_string st)); [reflexivity|].
    destruct (pair_here STAR SLASH c rest && negb (in_string st)) eqn:E1.
    { destruct rest as [|d rest]; [discriminate|].
      replace (done ++ c :: d :: rest) with ((done ++ [c; d]) ++ rest)
        by (rewrite <- app_assoc; reflexivity).
      replace (length done + 1 + 1) with (length (done ++ [c; d]))
        by (rewrite length_app; simpl; lia).
      apply IH. simpl in Hn. lia. }
    destruct (pair_here SLASH STAR c rest && negb (in_string st)) eqn:E2.
    { destruct rest as [|d rest]; [discriminate|].
      replace (done ++ c :: d :: rest) with ((done ++ [c; d]) ++ rest)
        by (rewrite <- app_assoc; reflexivity).
      replace (length done + 1 + 1) with (length (done ++ [c; d]))
        by (rewrite length_app; simpl; lia).
      apply IH. simpl in Hn. lia. }
    fold (semi_here c st). destruct (semi_here c st).
    { rewrite firstn_app, firstn_all, Nat.sub_diag, firstn_O, app_nil_r.
      replace (length done + 1) with (length (done ++ [c]))
        by (rewrite length_app; reflexivity).
      replace (done ++ c :: rest) with ((done ++ [c]) ++ rest)
        by (rewrite <- app_assoc; reflexivity).
      rewrite skipn_app, skipn_all, Nat.sub_diag. simpl.
      apply (IH _ [] rest). lia. }
    apply Hstep.
Qed.

(** The loop started at [i = 0] is [scan] of the whole line. *)
Lemma while_loop_scan st line :
  while_loop st line 0 = Ok (scan st [] line).
Proof. apply (while_loop_scan_aux (length line) st [] line (le_n _)). Qed.

(** ** The model without the exception monad *)

Lemma for_body_step st raw : for_body st raw = Ok (step_line st raw).
Proof.
  unfold for_body, step_line.
  destruct (negb (truthy (strip raw))); [reflexivity|].
  destruct (startswith [DASH; DASH] (strip raw)); [reflexivity|].
  rewrite while_loop_scan. cbn [bind].
  destruct (negb (in_comment (fst (scan st [] (strip raw))))); reflexivity.
Qed.

Lemma for_each_fold lines : forall st,
  for_each st lines = Ok (fold_left step_line lines st).
Proof.
  induction lines as [|raw lines IH]; intros st; simpl; [reflexivity|].
  rewrite for_body_step. cbn [bind]. apply IH.
Qed.

(** The state after the [for] loop of the source is [run]. *)
Lemma for_each_run sql_content :
  for_each initial (split_on LF sql_content) = Ok (run sql_content).
Proof. apply for_each_fold. Qed.

Lemma split_sql_queries_run sql_content :
  split_sql_queries sql_content = Ok (finish (run sql_content)).
Proof.
  unfold split_sql_queries. rewrite for_each_run. reflexivity.
Qed.

(** The scenarios of the specification that the source passes, run on
    the indexed loop itself. *)
Example two_statements_trailing_space :
  split_sql_queries (lit "SELECT 1; SELECT 2; ")
  = Ok [lit "SELECT 1"; lit "SELECT 2"].
Proof. vm_compute. reflexivity. Qed.

Example full_line_comment_with_delimiter :
  split_sql_queries (lit "-- drop table;" ++ LF :: lit "SELECT 1;")
  = Ok [lit "SELECT 1"].
Proof. vm_compute. reflexivity. Qed.

Example statement_over_two_lines :
  split_sql_queries (lit "SELECT 1" ++ LF :: lit "  FROM t;")
  = Ok [lit "SELECT 1 FROM t"].
Proof. vm_compute. reflexivity. Qed.

(** ** The branches of the loop, one equation each *)

Lemma pair_here_true a b c rest :
  pair_here a b c rest = true -> c = a /\ exists rest', rest = b :: rest'.
Proof.
  destruct rest as [|d rest]; simpl; [discriminate|].
  intros H. apply andb_prop in H. destruct H as [H1 H2].
  apply N.eqb_eq in H1, H2. subst. eauto.
Qed.

Lemma scan_quote st done c rest :
  is_quote c = true -> in_comment st = false ->
  scan st done (c :: rest) = scan (quote_step c st) (done ++ [c]) rest.
Proof. intros Hq Hc. simpl. rewrite Hq, Hc. reflexivity. Qed.

Lemma scan_dash st done rest :
  in_string st = false ->
  scan st done (DASH :: DASH :: rest)
  = (set_comment true st, done ++ DASH :: DASH :: rest).
Proof. intros Hs. simpl. rewrite Hs. reflexivity. Qed.

Lemma scan_close st done rest :
  in_string st = false ->
  scan st done (STAR :: SLASH :: rest)
  = scan (set_comment false st) (done ++ [STAR; SLASH]) rest.
Proof. intros Hs. simpl. rewrite Hs. reflexivity. Qed.

Lemma scan_open st done rest :
  in_string st = false ->
  scan st done (SLASH :: STAR :: rest)
  = scan (set_comment true st) (done ++ [SLASH; STAR]) rest.
Proof. intros Hs. simpl. rewrite Hs. reflexivity. Qed.

Lemma scan_semi st done rest :
  in_string st = false -> in_comment st = false ->
  scan st done (SEMI :: rest) = scan (flush done st) [] rest.
Proof.
  intros Hs Hc. simpl. unfold semi_here. rewrite Hs, Hc.
  destruct rest; reflexivity.
Qed.

(** A character that takes none of the branches only moves [i]. *)
Lemma scan_plain st done c rest :
  is_quote c && negb (in_comment st) = false ->
  pair_here DASH DASH c rest && negb (in_string st) = false ->
  pair_here STAR SLASH c rest && negb (in_string st) = false ->
  pair_here SLASH STAR c rest && negb (in_string st) = false ->
  semi_here c st = false ->
  scan st done (c :: rest) = scan st (done ++ [c]) rest.
Proof. intros H1 H2 H3 H4 H5. simpl. rewrite H1, H2, H3, H4, H5. reflexivity. Qed.

(** Induction over the iterations of the loop. *)
Lemma scan_cases (P : state -> str -> str -> Prop) :
  (forall st done, P st done []) ->
  (forall st done c rest,
      is_quote c = true -> in_comment st = false ->
      P (quote_step c st) (done ++ [c]) rest -> P st done (c :: rest)) ->
  (forall st done rest,
      in_string st = false -> P st done (DASH :: DASH :: rest)) ->
  (forall st done rest,
      in_string st = false ->
      P (set_comment false st) (done ++ [STAR; SLASH]) rest ->
      P st done (STAR :: SLASH :: rest)) ->
  (forall st done rest,
      in_string st = false ->
      P (set_comment true st) (done ++ [SLASH; STAR]) rest ->
      P st done (SLASH :: STAR :: rest)) ->
  (forall st done rest,
      in_string st = false -> in_comment st = false ->
      P (flush done st) [] rest -> P st done (SEMI :: rest)) ->
  (forall st done c rest,
      is_quote c && negb (in_comment st) = false ->
      pair_here DASH DASH c rest && negb (in_string st) = false ->
      pair_here STAR SLASH c rest && negb (in_string st) = false ->
      pair_here SLASH STAR c rest && negb (in_string st) = false ->
      semi_here c st = false ->
      P st (done ++ [c]) rest -> P st done (c :: rest)) ->
  forall rest st done, P st done rest.
Proof.
  intros Hnil Hquote Hdash Hclose Hopen Hsemi Hplain rest.
  assert (H : forall n rest, length rest <= n -> forall st done, P st done rest).
  { induction n as [|n IH]; intros r Hn st done.
    - destruct r; [apply Hnil|simpl in Hn; lia].
    - destruct r as [|c r]; [apply Hnil|]. simpl in Hn.
      destruct (is_quote c && negb (in_comment st)) eqn:Eq.
      { apply andb_prop in Eq. destruct Eq as [Eq Ec].
        apply negb_true_iff in Ec. apply Hquote; auto. apply IH. lia. }
      destruct (pair_here DASH DASH c r && negb (in_string st)) eqn:Ed.
      { apply andb_prop in Ed. destruct Ed as [Ed Es].
        apply negb_true_iff in Es.
        apply pair_here_true in Ed. destruct Ed as [-> [r' ->]].
        apply Hdash; auto. }
      destruct (pair_here STAR SLASH c r && negb (in_string st)) eqn:Ecl.
      { apply andb_prop in Ecl. destruct Ecl as [Ecl Es].
        apply negb_true_iff in Es.
        apply pair_here_true in Ecl. destruct Ecl as [-> [r' ->]].
        apply Hclose; auto. apply IH. simpl in Hn. lia. }
      destruct (pair_here SLASH STAR c r && negb (in_string st)) eqn:Eo.
      { apply andb_prop in Eo. destruct Eo as [Eo Es].
        apply negb_true_iff in Es.
        apply pair_here_true in Eo. destruct Eo as [-> [r' ->]].
        apply Hopen; auto. apply IH. simpl in Hn. lia. }
      destruct (semi_here c st) eqn:Ese.
      { unfold semi_here in Ese.
        apply andb_prop in Ese. destruct Ese as [Ese Ec].
        apply andb_prop in Ese. destruct Ese as [Ese Es].
        apply negb_true_iff in Ec, Es. apply N.eqb_eq in Ese. subst c.
        apply Hsemi; auto. apply IH. lia. }
      apply Hplain; auto. apply IH. lia. }
  apply (H (length rest)). lia.
Qed.

(** ** [strip], [split] and [join] *)

Lemma lstrip_app_nonspace s c t :
  isspace c = false -> lstrip (s ++ c :: t) = lstrip s ++ c :: t.
Proof.
  intros Hc. induction s as [|d s IH]; simpl.
  - rewrite Hc. reflexivity.
  - destruct (isspace d); [apply IH|reflexivity].
Qed.

Lemma rstrip_app_nonspace s c t :
  isspace c = false -> rstrip (s ++ c :: t) = s ++ c :: rstrip t.
Proof.
  intros Hc. unfold rstrip.
  rewrite rev_app_distr. simpl rev. rewrite <- app_assoc. simpl.
  rewrite lstrip_app_nonspace by assumption.
  rewrite rev_app_distr. simpl. rewrite rev_involutive, <- app_assoc.
  reflexivity.
Qed.


Lemma rstrip_snoc_nonspace s c :
  isspace c = false -> rstrip (s ++ [c]) = s ++ [c].
Proof. intros Hc. rewrite rstrip_app_nonspace by assumption. reflexivity. Qed.

Lemma rstrip_cons_nonspace c t :
  isspace c = false -> rstrip (c :: t) = c :: rstrip t.
Proof. intros Hc. apply (rstrip_app_nonspace [] c t Hc). Qed.

Lemma lstrip_head s : 
  match lstrip s with [] => True | c :: _ => isspace c = false end.
Proof.
  induction s as [|c s IH]; simpl; [exact I|].
  destruct (isspace c) eqn:E; [exact IH|exact E].
Qed.

Lemma rstrip_keeps_head s :
  match s with [] => True | c :: _ => isspace c = false end ->
  match rstrip s with [] => True | c :: _ => isspace c = false end.
Proof.
  destruct s as [|c s]; intros H; [exact I|].
  rewrite rstrip_cons_nonspace by exact H. exact H.
Qed.

(** ** What [queries] can hold *)

Lemma strip_no_leading_space s : starts_with_space (strip s) = false.
Proof.
  unfold strip. pose proof (rstrip_keeps_head (lstrip s) (lstrip_head s)) as H.
  unfold starts_with_space. destruct (rstrip (lstrip s)); [reflexivity|exact H].
Qed.

Lemma strip_no_trailing_space s : ends_with_space (strip s) = false.
Proof.
  unfold ends_with_space, strip, rstrip. rewrite rev_involutive.
  pose proof (lstrip_head (rev (lstrip s))) as H.
  unfold starts_with_space. destruct (lstrip (rev (lstrip s))); [reflexivity|exact H].
Qed.

Lemma truthy_nonempty (A : Type) (s : list A) : truthy s = true -> s <> [].
Proof. destruct s; [discriminate|discriminate]. Qed.

Lemma emit_trimmed cq qs : Forall trimmed qs -> Forall trimmed (emit cq qs).
Proof.
  intros H. unfold emit. destruct (truthy (full_query cq)) eqn:E; [|exact H].
  apply Forall_app. split; [exact H|]. constructor; [|constructor].
  unfold trimmed, full_query in *. repeat split.
  - apply truthy_nonempty. exact E.
  - apply strip_no_leading_space.
  - apply strip_no_trailing_space.
Qed.

Lemma queries_quote_step c st : queries (quote_step c st) = queries st.
Proof.
  unfold quote_step.
  destruct (in_string st && same_quote (string_char st) c); [reflexivity|].
  destruct (negb (in_string st)); reflexivity.
Qed.

(** A property of [queries] kept by every append of a [full_query] holds
    all along the run. *)
Section QueriesInvariant.
Variable P : list str -> Prop.
Hypothesis P_emit : forall cq qs, P qs -> P (emit cq qs).

Lemma scan_queries_inv rest : forall st done,
  P (queries st) -> P (queries (fst (scan st done rest))).
Proof.
  revert rest.
  apply (scan_cases (fun st done rest =>
           P (queries st) -> P (queries (fst (scan st done rest))))).
  - intros st done H. exact H.
  - intros st done c rest Hq Hc IH H. rewrite scan_quote by assumption.
    apply IH. rewrite queries_quote_step. exact H.
  - intros st done rest Hs H. rewrite scan_dash by assumption. exact H.
  - intros st done rest Hs IH H. rewrite scan_close by assumption.
    apply IH. exact H.
  - intros st done rest Hs IH H. rewrite scan_open by assumption.
    apply IH. exact H.
  - intros st done rest Hs Hc IH H. rewrite scan_semi by assumption.
    apply IH. simpl. apply P_emit. exact H.
  - intros st done c rest H1 H2 H3 H4 H5 IH H.
    rewrite scan_plain by assumption. apply IH. exact H.
Qed.

Lemma step_line_queries_inv st raw :
  P (queries st) -> P (queries (step_line st raw)).
Proof.
  intros H. unfold step_line.
  destruct (negb (truthy (strip raw))); [exact H|].
  destruct (startswith [DASH; DASH] (strip raw)); [exact H|].
  pose proof (scan_queries_inv (strip raw) st [] H) as H'.
  destruct (negb (in_comment (fst (scan st [] (strip raw))))); exact H'.
Qed.

Lemma fold_queries_inv lines : forall st,
  P (queries st) -> P (queries (fold_left step_line lines st)).
Proof.
  induction lines as [|raw lines IH]; intros st H; simpl; [exact H|].
  apply IH. apply step_line_queries_inv. exact H.
Qed.

Lemma finish_inv st : P (queries st) -> P (finish st).
Proof.
  intros H. unfold finish.
  destruct (truthy (current_query st) && negb (in_comment st)); [|exact H].
  apply P_emit. exact H.
Qed.

Lemma result_inv sql_content : P [] -> P (finish (run sql_content)).
Proof.
  intros H. apply finish_inv. unfold run. apply fold_queries_inv. exact H.
Qed.
End QueriesInvariant.

(** ** Termination without an exception, and the shape of the result *)

(** C1: for every input string, the empty one included, [split_sql_queries]
    returns a list of strings and raises nothing (the loop never indexes
    the line out of range and always terminates); on the empty input the
    list is empty. *)
Theorem split_sql_queries_never_raises :
  (forall sql_content : str, exists qs : list str,
      split_sql_queries sql_content = Ok qs)
  /\ split_sql_queries [] = Ok [].
Proof.
  split.
  - intros sql_content. exists (finish (run sql_content)).
    apply split_sql_queries_run.
  - rewrite split_sql_queries_run. reflexivity.
Qed.

(** C9: every statement returned is non-empty and has neither leading nor
    trailing whitespace, whatever the input; consecutive or trailing
    delimiters add nothing, and [";;"] gives the empty list. *)
Theorem split_sql_queries_statements_trimmed :
  (forall sql_content : str, exists qs : list str,
      split_sql_queries sql_content = Ok qs /\ Forall trimmed qs)
  /\ split_sql_queries (lit ";;") = Ok [].
Proof.
  split.
  - intros sql_content. exists (finish (run sql_content)). split.
    + apply split_sql_queries_run.
    + apply result_inv; [apply emit_trimmed|constructor].
  - rewrite split_sql_queries_run. reflexivity.
Qed.

(** ** Line comments *)

(** C2: on ["SELECT * FROM t -- comment\nWHERE id = 1;"] the function
    returns no statement at all: the [--] met in the first line sets
    [in_comment], the flag is still set when the second line is scanned,
    so neither line is appended and the delimiter is ignored. *)
Theorem mid_line_comment_example :
  split_sql_queries
    (lit "SELECT * FROM t -- comment" ++ LF :: lit "WHERE id = 1;")
  = Ok [].
Proof. vm_compute. reflexivity. Qed.

(** ** String literals *)

(** Inside the loop the guards do their work: while [in_string] holds an
    iteration only moves to the next character, emits nothing and leaves
    [in_comment] alone. *)
Lemma loop_body_in_string st line i fl :
  in_string st = true ->
  loop_body st line i = Ok fl ->
  exists st', fl = Next st' line (i + 1)
    /\ queries st' = queries st
    /\ current_query st' = current_query st
    /\ in_comment st' = in_comment st.
Proof.
  intros Hs. unfold loop_body, marker, bind. rewrite Hs.
  destruct (getitem line i) as [c|e]; [|discriminate].
  repeat first
    [ rewrite andb_false_r
    | progress cbn [negb andb]
    | match goal with
      | |- context [getitem line (i + 1)] => destruct (getitem line (i + 1))
      | |- context [if ?b then _ else _] => destruct b
      end ];
    simpl; intros H; inversion H; subst; eexists; repeat split; reflexivity.
Qed.

(** C3: the test for a full-line comment does not look at [in_string].
    After ["SELECT 'x"] the scanner is inside a literal, yet the next
    line, which continues the literal and starts with [--], is dropped as
    a comment: the closing quote and the delimiter on it are never seen. *)
Theorem literal_line_starting_with_dashes :
  in_string (run (lit "SELECT 'x")) = true
  /\ split_sql_queries (lit "SELECT 'x" ++ LF :: lit "-- y' AS c;")
     = Ok [lit "SELECT 'x"].
Proof. split; vm_compute; reflexivity. Qed.

(** ** End of input *)

(** C6, as stated, fails: when the input ends inside a block comment the
    accumulated buffer is not flushed. *)
Lemma unterminated_comment_drops_buffer :
  ~ (forall sql_content : str,
        ends_unterminated sql_content ->
        split_sql_queries sql_content
        = Ok (emit (current_query (run sql_content))
                   (queries (run sql_content)))).
Proof.
  intros H.
  specialize (H (lit "SELECT 1" ++ LF :: lit "/* abc")).
  assert (Hu : ends_unterminated (lit "SELECT 1" ++ LF :: lit "/* abc"))
    by (right; vm_compute; reflexivity).
  specialize (H Hu). vm_compute in H. discriminate H.
Qed.

(** C6, amended: the function never raises; if the input ends with
    [in_comment] unset, in particular inside a quote, the buffer is
    flushed, trimmed, as a last statement when that is not empty; if it
    ends with [in_comment] set the buffer is dropped; the list returned is
    the same whether or not a quote is still open, and nothing else is
    returned; ["SELECT 'abc"] gives [["SELECT 'abc"]]. *)
Theorem unterminated_input_best_effort :
  (forall sql_content : str,
      split_sql_queries sql_content = Ok (finish (run sql_content))
      /\ (in_comment (run sql_content) = false ->
          finish (run sql_content)
          = emit (current_query (run sql_content)) (queries (run sql_content)))
      /\ (in_comment (run sql_content) = true ->
          finish (run sql_content) = queries (run sql_content)))
  /\ (forall (st : state) (b : bool) (q : option char),
         finish (set_string b q st) = finish st)
  /\ split_sql_queries (lit "SELECT 'abc") = Ok [lit "SELECT 'abc"].
Proof.
  split; [|split].
  - intros sql_content. split; [apply split_sql_queries_run|].
    unfold finish. split; intros ->.
    + rewrite andb_true_r.
      destruct (current_query (run sql_content)); reflexivity.
    + rewrite andb_false_r. reflexivity.
  - intros st b q. reflexivity.
  - vm_compute. reflexivity.
Qed.

(** An input that ends inside a literal, and one that ends inside a
    comment. *)
Lemma unterminated_input_best_effort_witness :
  in_string (run (lit "SELECT 'abc")) = true
  /\ in_comment (run (lit "SELECT 'abc")) = false
  /\ finish (run (lit "SELECT 'abc"))
     = emit (current_query (run (lit "SELECT 'abc")))
            (queries (run (lit "SELECT 'abc")))
  /\ in_comment (run (lit "SELECT 1" ++ LF :: lit "/* abc")) = true
  /\ finish (run (lit "SELECT 1" ++ LF :: lit "/* abc"))
     = queries (run (lit "SELECT 1" ++ LF :: lit "/* abc")).
Proof.
  split; [reflexivity|]. split; [reflexivity|]. split.
  - apply (proj1 unterminated_input_best_effort (lit "SELECT 'abc")).
    reflexivity.
  - split; [reflexivity|].
    apply (proj1 unterminated_input_best_effort
             (lit "SELECT 1" ++ LF :: lit "/* abc")).
    reflexivity.
Defined.

(** ** Text that holds no marker *)

Lemma pair_here_app a b c t rest :
  pair_here a b c (t ++ rest)
  = match t with [] => pair_here a b c rest | _ :: _ => pair_here a b c t end.
Proof. destruct t; reflexivity. Qed.

Lemma no_pair_app_inv a b s t :
  no_pair a b (s ++ t) = true -> no_pair a b s = true /\ no_pair a b t = true.
Proof.
  induction s as [|c s IH]; simpl; intros H; [auto|].
  apply andb_prop in H. destruct H as [H1 H2].
  destruct (IH H2) as [H3 H4]. split; [|exact H4].
  rewrite H3, andb_true_r.
  rewrite pair_here_app in H1. destruct s; [|exact H1].
  reflexivity.
Qed.

Lemma no_markers_app_inv s t :
  no_markers (s ++ t) = true -> no_markers s = true /\ no_markers t = true.
Proof.
  unfold no_markers. intros H.
  apply andb_prop in H. destruct H as [H H3].
  apply andb_prop in H. destruct H as [H1 H2].
  apply no_pair_app_inv in H1, H2, H3.
  destruct H1 as [-> ->], H2 as [-> ->], H3 as [-> ->]. auto.
Qed.

Lemma no_markers_dashes s : no_markers s = true -> no_pair DASH DASH s = true.
Proof. unfold no_markers. rewrite !andb_true_iff. tauto. Qed.

Lemma lstrip_suffix s : exists ws, s = ws ++ lstrip s.
Proof.
  induction s as [|c s [ws IH]]; simpl.
  - exists []. reflexivity.
  - destruct (isspace c).
    + exists (c :: ws). simpl. f_equal. exact IH.
    + exists []. reflexivity.
Qed.

Lemma rstrip_prefix s : exists ws, s = rstrip s ++ ws.
Proof.
  unfold rstrip. destruct (lstrip_suffix (rev s)) as [ws H].
  exists (rev ws). rewrite <- rev_app_distr, <- H, rev_involutive. reflexivity.
Qed.

Lemma strip_infix s : exists l r, s = l ++ strip s ++ r.
Proof.
  unfold strip. destruct (lstrip_suffix s) as [l Hl].
  destruct (rstrip_prefix (lstrip s)) as [r Hr].
  exists l, r. rewrite <- Hr. exact Hl.
Qed.


Lemma no_markers_strip s : no_markers s = true -> no_markers (strip s) = true.
Proof.
  intros H. destruct (strip_infix s) as (l & r & E). rewrite E in H.
  apply no_markers_app_inv in H. destruct H as [_ H].
  apply no_markers_app_inv in H. apply H.
Qed.


(** ** Stretches of a line over which the scanner only moves on *)



(** ** A [--] met part-way through a line *)











(** ** A line that is one statement *)

Lemma split_on_no_sep sep s : no_char sep s = true -> split_on sep s = [s].
Proof.
  induction s as [|c s IH]; simpl; intros H; [reflexivity|].
  apply andb_prop in H. destruct H as [Hc H]. apply negb_true_iff in Hc.
  rewrite Hc, (IH H). reflexivity.
Qed.

Lemma lstrip_idem s : lstrip (lstrip s) = lstrip s.
Proof.
  induction s as [|c s IH]; simpl; [reflexivity|].
  destruct (isspace c) eqn:E; [exact IH|]. simpl. rewrite E. reflexivity.
Qed.

Lemma strip_lstrip s : strip (lstrip s) = strip s.
Proof. unfold strip. rewrite lstrip_idem. reflexivity. Qed.


Lemma strip_before_semi Y : strip (Y ++ [SEMI]) = lstrip Y ++ [SEMI].
Proof.
  unfold strip. rewrite lstrip_app_nonspace by reflexivity.
  apply rstrip_snoc_nonspace. reflexivity.
Qed.

Lemma no_char_app a s t :
  no_char a (s ++ t) = no_char a s && no_char a t.
Proof. apply forallb_app. Qed.

(** If the scanner gets through the text before a final [;] and takes
    that [;] as a delimiter, the text, trimmed, is the one statement. *)
Lemma one_statement Y :
  no_char LF Y = true ->
  truthy (strip Y) = true ->
  startswith [DASH; DASH] (lstrip Y ++ [SEMI]) = false ->
  scan initial [] (lstrip Y ++ [SEMI]) = (flush (lstrip Y) initial, []) ->
  split_sql_queries (Y ++ [SEMI]) = Ok [strip Y].
Proof.
  intros Hlf Hne Hsw Hscan.
  rewrite split_sql_queries_run. unfold run.
  rewrite split_on_no_sep
    by (rewrite no_char_app, Hlf; reflexivity).
  cbn [fold_left]. unfold step_line. rewrite strip_before_semi.
  replace (truthy (lstrip Y ++ [SEMI])) with true
    by (destruct (lstrip Y); reflexivity).
  cbn [negb]. rewrite Hsw, Hscan.
  unfold finish. cbn. unfold emit, full_query. cbn [join].
  rewrite strip_lstrip, Hne. reflexivity.
Qed.

Lemma startswith_dashes_no_pair text rest :
  no_pair DASH DASH text = true -> starts_marker rest = false ->
  startswith [DASH; DASH] (text ++ rest) = false.
Proof.
  intros Hn Hr.
  assert (Hrest : forall r, starts_marker r = false -> startswith [DASH] r = false).
  { intros [|d r] H; [reflexivity|].
    cbn [starts_marker] in H. unfold marker_char in H.
    apply orb_false_elim in H. destruct H as [H _].
    apply orb_false_elim in H. destruct H as [H _].
    cbn [startswith]. rewrite N.eqb_sym, H. reflexivity. }
  destruct text as [|c [|d t]]; cbn [app].
  - destruct rest as [|d rest]; [reflexivity|].
    pose proof (Hrest (d :: rest) Hr) as H. cbn [startswith] in H |- *.
    rewrite andb_true_r in H. rewrite H. reflexivity.
  - cbn [startswith]. fold (startswith [DASH] rest).
    rewrite (Hrest rest Hr). apply andb_false_r.
  - cbn [no_pair pair_here] in Hn. apply andb_prop in Hn. destruct Hn as [Hn _].
    apply negb_true_iff in Hn. cbn [startswith].
    rewrite andb_true_r, (N.eqb_sym DASH c), (N.eqb_sym DASH d). exact Hn.
Qed.

(** ** Code text with delimiters, and the naive split *)

Lemma split_on_nonempty sep s : exists p ps, split_on sep s = p :: ps.
Proof.
  induction s as [|c s (p & ps & IH)]; simpl; [eauto|].
  destruct (c =? sep)%N; [eauto|]. rewrite IH. eauto.
Qed.

Lemma emit_filter cq qs : emit cq qs = qs ++ filter truthy [full_query cq].
Proof.
  unfold emit. simpl. destruct (truthy (full_query cq)); [reflexivity|].
  rewrite app_nil_r. reflexivity.
Qed.

Lemma no_markers_cons c t :
  no_markers (c :: t) = true ->
  pair_here DASH DASH c t = false /\ pair_here STAR SLASH c t = false
  /\ pair_here SLASH STAR c t = false /\ no_markers t = true.
Proof.
  unfold no_markers. cbn [no_pair]. rewrite !andb_true_iff, !negb_true_iff.
  tauto.
Qed.

Lemma all_space_lstrip s : forallb isspace s = true -> lstrip s = [].
Proof.
  induction s as [|c s IH]; simpl; [reflexivity|].
  destruct (isspace c); [exact IH|discriminate].
Qed.


Lemma all_space_no_semi s : forallb isspace s = true -> no_char SEMI s = true.
Proof.
  induction s as [|c s IH]; simpl; [reflexivity|].
  intros H. apply andb_prop in H. destruct H as [Hc H]. rewrite (IH H).
  destruct (c =? SEMI)%N eqn:E; [|reflexivity].
  apply N.eqb_eq in E. subst c. discriminate Hc.
Qed.

(** [lstrip (u ++ [c])] from [lstrip u]. *)
Lemma lstrip_snoc u c :
  lstrip (u ++ [c])
  = match lstrip u with
    | [] => if isspace c then [] else [c]
    | _ :: _ => lstrip u ++ [c]
    end.
Proof.
  induction u as [|d u IH]; simpl; [reflexivity|].
  destruct (isspace d); [exact IH|reflexivity].
Qed.

(** [rstrip (c :: p)] from [rstrip p]. *)
Lemma rstrip_cons c p :
  rstrip (c :: p)
  = match rstrip p with
    | [] => if isspace c then [] else [c]
    | _ :: _ => c :: rstrip p
    end.
Proof.
  unfold rstrip. simpl rev. rewrite lstrip_snoc.
  destruct (lstrip (rev p)) as [|d l] eqn:E; simpl.
  - destruct (isspace c); reflexivity.
  - rewrite rev_app_distr. simpl.
    destruct (rev l ++ [d]) eqn:E'; [|reflexivity].
    destruct (rev l); discriminate E'.
Qed.

Lemma lstrip_rstrip p : lstrip (rstrip p) = rstrip (lstrip p).
Proof.
  induction p as [|c p IH]; [reflexivity|].
  simpl lstrip. destruct (isspace c) eqn:E.
  - rewrite rstrip_cons, E, <- IH.
    destruct (rstrip p) eqn:Er; [reflexivity|]. simpl. rewrite E. reflexivity.
  - rewrite rstrip_cons_nonspace by exact E. simpl. rewrite E. reflexivity.
Qed.

Lemma rstrip_decomp s :
  exists ws, s = rstrip s ++ ws /\ forallb isspace ws = true.
Proof.
  induction s as [|c s (ws & E & Hws)].
  - exists []. auto.
  - rewrite rstrip_cons. destruct (rstrip s) eqn:Er.
    + destruct (isspace c) eqn:Ec.
      * exists (c :: s). split; [reflexivity|]. simpl. rewrite Ec.
        simpl in E. rewrite E. exact Hws.
      * exists s. split; [reflexivity|]. simpl in E. rewrite E. exact Hws.
    + exists ws. split; [|exact Hws]. simpl. f_equal. exact E.
Qed.

Lemma map_strip_split_lstrip s :
  map strip (split_on SEMI (lstrip s)) = map strip (split_on SEMI s).
Proof.
  induction s as [|c s IH]; [reflexivity|].
  simpl lstrip. destruct (isspace c) eqn:E; [|reflexivity].
  rewrite IH. cbn [split_on].
  replace (c =? SEMI)%N with false
    by (symmetry; apply N.eqb_neq; intros ->; discriminate E).
  destruct (split_on_nonempty SEMI s) as (p & ps & Ep). rewrite Ep.
  cbn [map]. f_equal. unfold strip. simpl. rewrite E. reflexivity.
Qed.

Lemma map_rstrip_split_app x ws :
  forallb isspace ws = true ->
  map rstrip (split_on SEMI (x ++ ws)) = map rstrip (split_on SEMI x).
Proof.
  intros Hws. induction x as [|c x IH].
  - simpl app. rewrite split_on_no_sep by (apply all_space_no_semi; exact Hws).
    cbn [split_on map]. f_equal. unfold rstrip.
    rewrite all_space_lstrip; [reflexivity|].
    rewrite forallb_forall in *. intros a Ha. apply Hws.
    apply in_rev. exact Ha.
  - simpl app. cbn [split_on]. destruct (c =? SEMI)%N.
    + cbn [map]. rewrite IH. reflexivity.
    + destruct (split_on_nonempty SEMI (x ++ ws)) as (p & ps & Ep).
      destruct (split_on_nonempty SEMI x) as (p' & ps' & Ep').
      rewrite Ep, Ep' in *. cbn [map] in *.
      inversion IH as [[IH1 IH2]]. rewrite !rstrip_cons, IH1. reflexivity.
Qed.

Lemma map_strip_split_rstrip s :
  map strip (split_on SEMI (rstrip s)) = map strip (split_on SEMI s).
Proof.
  destruct (rstrip_decomp s) as (ws & E & Hws).
  assert (Hs : forall l, map strip l = map lstrip (map rstrip l)).
  { intros l. rewrite map_map. apply map_ext. intros a.
    unfold strip. symmetry. apply lstrip_rstrip. }
  rewrite !Hs. f_equal.
  rewrite E at 2. symmetry. apply map_rstrip_split_app. exact Hws.
Qed.

Lemma split_trim_drop_strip s : split_trim_drop (strip s) = split_trim_drop s.
Proof.
  unfold split_trim_drop, strip.
  rewrite map_strip_split_rstrip, map_strip_split_lstrip. reflexivity.
Qed.

Lemma no_quotes_strip s : no_quotes s = true -> no_quotes (strip s) = true.
Proof.
  unfold no_quotes. intros H. destruct (strip_infix s) as (l & r & E).
  rewrite E, !forallb_app, !andb_true_iff in H. tauto.
Qed.

(** C8, as stated, fails on an input of several lines: the scanner joins
    the lines of a statement with single spaces, the reference keeps the
    newline. *)
Lemma naive_split_keeps_newlines :
  ~ (forall s : str,
        no_quotes s = true -> no_markers s = true ->
        split_sql_queries s = Ok (split_trim_drop s)).
Proof.
  intros H. specialize (H (lit "a" ++ LF :: lit "b;") eq_refl eq_refl).
  vm_compute in H. discriminate H.
Qed.

(** ** A block comment that holds delimiters *)

Lemma split_on_app_sep sep cur rest :
  no_char sep cur = true ->
  split_on sep (cur ++ sep :: rest) = cur :: split_on sep rest.
Proof.
  induction cur as [|c cur IH]; cbn [app split_on no_char forallb]; intros H.
  - rewrite N.eqb_refl. reflexivity.
  - apply andb_prop in H. destruct H as [Hc H]. apply negb_true_iff in Hc.
    rewrite Hc, (IH H). reflexivity.
Qed.

Lemma truthy_app_cons (A : Type) (l r : list A) (a : A) :
  truthy (l ++ a :: r) = true.
Proof. destruct l; reflexivity. Qed.

(** C4: on ["/* ; ; */ SELECT 2;"] the function returns the whole line
    without its final [;], the block comment and its two markers
    included.  When the comment is opened on an earlier line, that line
    is dropped whole, with the code text that stands before the comment,
    and the statement returned starts in the middle of the comment: only
    the lines that end inside a comment are left out, the line on which
    the comment closes is kept from its first character. *)
Theorem block_comment_example :
  split_sql_queries (lit "/* ; ; */ SELECT 2;")
  = Ok [lit "/* ; ; */ SELECT 2"]
  /\ split_sql_queries (lit "/* ;" ++ LF :: lit "; */ SELECT 2;")
     = Ok [lit "; */ SELECT 2"]
  /\ split_sql_queries
       (lit "SELECT 1 /* first" ++ LF :: lit "second */ FROM t;")
     = Ok [lit "second */ FROM t"].
Proof. repeat split; vm_compute; reflexivity. Qed.

(** ** White space is neither a quote nor a delimiter *)



(** ** [strip] around a quoted literal *)


(** ** Splitting a statement again *)

Lemma trimmed_lstrip q : trimmed q -> lstrip q = q.
Proof.
  intros (Hne & Hh & _). destruct q as [|c q]; [reflexivity|].
  cbn [starts_with_space] in Hh. cbn [lstrip]. rewrite Hh. reflexivity.
Qed.

Lemma trimmed_strip q : trimmed q -> strip q = q.
Proof.
  intros H. unfold strip. rewrite (trimmed_lstrip q H).
  destruct H as (Hne & _ & Ht). unfold rstrip, ends_with_space in *.
  destruct (rev q) as [|c r] eqn:E.
  - apply (f_equal (@rev char)) in E. rewrite rev_involutive in E. exact (eq_sym E).
  - cbn [starts_with_space] in Ht. cbn [lstrip]. rewrite Ht, <- E.
    apply rev_involutive.
Qed.

Lemma join_snoc sep cq x :
  join sep (cq ++ [x])
  = match cq with
    | [] => x
    | _ :: _ => join sep cq ++ sep ++ x
    end.
Proof.
  induction cq as [|p cq IH]; [reflexivity|].
  cbn [app join]. destruct cq as [|p' cq]; [reflexivity|].
  cbn [app] in *. rewrite IH, <- !app_assoc. reflexivity.
Qed.

Lemma join_snoc_app sep cq d e :
  join sep (cq ++ [d ++ e]) = join sep (cq ++ [d]) ++ e.
Proof.
  rewrite !join_snoc. destruct cq; [reflexivity|].
  rewrite <- !app_assoc. reflexivity.
Qed.

Lemma no_char_strip a s : no_char a s = true -> no_char a (strip s) = true.
Proof.
  intros H. destruct (strip_infix s) as (l & r & E).
  rewrite E, !no_char_app, !andb_true_iff in H. tauto.
Qed.

Lemma buffer_app st d e : buffer st (d ++ e) = buffer st d ++ e.
Proof. apply join_snoc_app. Qed.

Lemma split_on_head_prefix sep s : forall p ps,
  split_on sep s = p :: ps -> exists r, s = p ++ r.
Proof.
  induction s as [|c s IH]; intros p ps; cbn [split_on].
  - intros [= <- <-]. exists []. reflexivity.
  - destruct (c =? sep)%N.
    + intros [= <- <-]. exists (c :: s). reflexivity.
    + destruct (split_on sep s) as [|p' ps'] eqn:E.
      * intros [= <- <-]. destruct (split_on_nonempty sep s) as (a & b & E').
        rewrite E in E'. discriminate E'.
      * intros [= <- <-]. destruct (IH p' ps' eq_refl) as [r Hr].
        exists r. cbn [app]. rewrite <- Hr. reflexivity.
Qed.

Lemma split_on_lines_no_markers s :
  no_markers s = true ->
  Forall (fun l => no_markers l = true /\ no_char LF l = true) (split_on LF s).
Proof.
  induction s as [|c s IH]; intros Hm; cbn [split_on].
  - repeat constructor.
  - pose proof (proj2 (no_markers_app_inv [c] s Hm)) as Hm'.
    specialize (IH Hm').
    destruct (c =? LF)%N eqn:E; [constructor; [split; reflexivity|exact IH]|].
    destruct (split_on LF s) as [|p ps] eqn:Ep; [repeat constructor|].
    + cbn. rewrite E. reflexivity.
    + inversion IH as [|? ? [Hp1 Hp2] Hps]; subst. constructor; [|exact Hps].
      destruct (split_on_head_prefix LF s p ps Ep) as [r Hr].
      split.
      * rewrite Hr in Hm.
        apply (no_markers_app_inv (c :: p) r). exact Hm.
      * cbn [no_char forallb]. rewrite E. exact Hp2.
Qed.

(** C7, as stated, fails: the statement flushed from an input that ends
    inside a literal takes the appended [;] into the literal. *)
Lemma open_literal_statement_not_resplit :
  ~ (forall (sql_content : str) (qs : list str) (s : str),
        split_sql_queries sql_content = Ok qs -> In s qs ->
        split_sql_queries (s ++ [SEMI]) = Ok [s]).
Proof.
  intros H.
  specialize (H (lit "SELECT 'abc") [lit "SELECT 'abc"] (lit "SELECT 'abc")
                eq_refl (or_introl eq_refl)).
  vm_compute in H. discriminate H.
Qed.

(** The same failure from a comment: the statement left by a comment that
    closes on a later line starts with text of the comment. *)
Example comment_tail_statement_not_resplit :
  split_sql_queries (lit "/* ;" ++ LF :: lit "; */ SELECT 2;")
  = Ok [lit "; */ SELECT 2"]
  /\ split_sql_queries (lit "; */ SELECT 2" ++ [SEMI])
     = Ok [lit "*/ SELECT 2"].
Proof. split; vm_compute; reflexivity. Qed.

(** * Further properties of the splitter *)

(** ** The characters of the statements *)

Lemma forallb_strip (ok : char -> bool) s :
  forallb ok s = true -> forallb ok (strip s) = true.
Proof.
  intros H. destruct (strip_infix s) as (l & r & E).
  rewrite E, !forallb_app, !andb_true_iff in H. tauto.
Qed.

Lemma forallb_join (ok : char -> bool) parts :
  ok SPACE = true -> statements_of ok parts ->
  forallb ok (join [SPACE] parts) = true.
Proof.
  intros Hsp. induction parts as [|p ps IH]; intros H; [reflexivity|].
  inversion H as [|? ? Hp Hps]; subst. cbn [join].
  destruct ps as [|p' ps]; [exact Hp|].
  rewrite !forallb_app, Hp, (IH Hps). cbn. rewrite Hsp. reflexivity.
Qed.

Lemma emit_chars_ok (ok : char -> bool) cq qs :
  ok SPACE = true -> statements_of ok cq -> statements_of ok qs ->
  statements_of ok (emit cq qs).
Proof.
  intros Hsp Hcq Hqs. unfold emit.
  destruct (truthy (full_query cq)); [|exact Hqs].
  apply Forall_app. split; [exact Hqs|]. constructor; [|constructor].
  apply forallb_strip, forallb_join; assumption.
Qed.

Lemma statements_of_snoc (ok : char -> bool) cq p :
  statements_of ok cq -> forallb ok p = true -> statements_of ok (cq ++ [p]).
Proof.
  intros H Hp. apply Forall_app. split; [exact H|]. constructor; [exact Hp|constructor].
Qed.

Lemma chars_ok_quote_step ok c st : chars_ok ok st -> chars_ok ok (quote_step c st).
Proof.
  unfold quote_step.
  destruct (in_string st && same_quote (string_char st) c); [exact (fun H => H)|].
  destruct (negb (in_string st)); exact (fun H => H).
Qed.

Lemma scan_chars_ok (ok : char -> bool) rest :
  ok SPACE = true ->
  forall st done,
  chars_ok ok st -> forallb ok done = true -> forallb ok rest = true ->
  chars_ok ok (fst (scan st done rest))
  /\ forallb ok (snd (scan st done rest)) = true.
Proof.
  intros Hsp. revert rest.
  apply (scan_cases (fun st done rest =>
           chars_ok ok st -> forallb ok done = true -> forallb ok rest = true ->
           chars_ok ok (fst (scan st done rest))
           /\ forallb ok (snd (scan st done rest)) = true)).
  - intros st done H Hd _. auto.
  - intros st done c rest Hq Hc IH H Hd Hr. rewrite scan_quote by assumption.
    cbn [forallb] in Hr. apply andb_prop in Hr. destruct Hr as [Hc' Hr].
    apply IH; [apply chars_ok_quote_step; exact H| |exact Hr].
    rewrite forallb_app, Hd. cbn. rewrite Hc'. reflexivity.
  - intros st done rest Hs H Hd Hr. rewrite scan_dash by assumption.
    split; [exact H|]. cbn [snd]. rewrite forallb_app, Hd. exact Hr.
  - intros st done rest Hs IH H Hd Hr. rewrite scan_close by assumption.
    cbn [forallb] in Hr. apply andb_prop in Hr. destruct Hr as [H1 Hr].
    apply andb_prop in Hr. destruct Hr as [H2 Hr].
    apply IH; [exact H| |exact Hr].
    rewrite forallb_app, Hd. cbn. rewrite H1, H2. reflexivity.
  - intros st done rest Hs IH H Hd Hr. rewrite scan_open by assumption.
    cbn [forallb] in Hr. apply andb_prop in Hr. destruct Hr as [H1 Hr].
    apply andb_prop in Hr. destruct Hr as [H2 Hr].
    apply IH; [exact H| |exact Hr].
    rewrite forallb_app, Hd. cbn. rewrite H1, H2. reflexivity.
  - intros st done rest Hs Hc IH [Hq Hcq] Hd Hr. rewrite scan_semi by assumption.
    cbn [forallb] in Hr. apply andb_prop in Hr. destruct Hr as [_ Hr].
    apply IH; [|reflexivity|exact Hr].
    split; cbn [flush queries current_query]; [|constructor].
    apply emit_chars_ok; [exact Hsp| |exact Hq].
    apply statements_of_snoc; assumption.
  - intros st done c rest H1 H2 H3 H4 H5 IH H Hd Hr.
    rewrite scan_plain by assumption.
    cbn [forallb] in Hr. apply andb_prop in Hr. destruct Hr as [Hc' Hr].
    apply IH; [exact H| |exact Hr].
    rewrite forallb_app, Hd. cbn. rewrite Hc'. reflexivity.
Qed.

Lemma step_line_chars_ok (ok : char -> bool) st raw :
  ok SPACE = true -> chars_ok ok st -> forallb ok raw = true ->
  chars_ok ok (step_line st raw).
Proof.
  intros Hsp H Hraw. unfold step_line.
  destruct (negb (truthy (strip raw))); [exact H|].
  destruct (startswith [DASH; DASH] (strip raw)); [exact H|].
  destruct (scan_chars_ok ok (strip raw) Hsp st [] H eq_refl
              (forallb_strip ok raw Hraw)) as [[Hq Hcq] Hl].
  destruct (negb (in_comment (fst (scan st [] (strip raw))))); [|split; assumption].
  split; [exact Hq|]. apply statements_of_snoc; assumption.
Qed.

Lemma fold_chars_ok (ok : char -> bool) lines :
  ok SPACE = true ->
  forall st, chars_ok ok st -> statements_of ok lines ->
  chars_ok ok (fold_left step_line lines st).
Proof.
  intros Hsp. induction lines as [|l lines IH]; intros st H Hl; [exact H|].
  inversion Hl; subst. cbn [fold_left].
  apply IH; [|assumption]. apply step_line_chars_ok; assumption.
Qed.

Lemma finish_chars_ok (ok : char -> bool) st :
  ok SPACE = true -> chars_ok ok st -> statements_of ok (finish st).
Proof.
  intros Hsp [Hq Hcq]. unfold finish.
  destruct (truthy (current_query st) && negb (in_comment st)); [|exact Hq].
  apply emit_chars_ok; assumption.
Qed.

(** The lines of a text are made of its characters other than [\n]. *)
Lemma split_on_chars (ok : char -> bool) sep s :
  (forall c, In c s -> c <> sep -> ok c = true) ->
  statements_of ok (split_on sep s).
Proof.
  induction s as [|c s IH]; intros H; cbn [split_on].
  - repeat constructor.
  - assert (IH' : statements_of ok (split_on sep s))
      by (apply IH; intros d Hd; apply H; right; exact Hd).
    destruct (c =? sep)%N eqn:E; [constructor; [reflexivity|exact IH']|].
    apply N.eqb_neq in E.
    destruct (split_on sep s) as [|p ps]; constructor.
    + cbn. rewrite (H c (or_introl eq_refl) E). reflexivity.
    + constructor.
    + inversion IH'; subst. cbn [forallb].
      rewrite (H c (or_introl eq_refl) E). assumption.
    + inversion IH'; subst. assumption.
Qed.

(** Whatever test the space and the characters of the input other than
    the newline pass, the characters of the statements pass. *)
Lemma result_chars_ok (ok : char -> bool) sql_content :
  ok SPACE = true ->
  (forall c, In c sql_content -> c <> LF -> ok c = true) ->
  statements_of ok (finish (run sql_content)).
Proof.
  intros Hsp H. apply finish_chars_ok; [exact Hsp|]. unfold run.
  apply fold_chars_ok; [exact Hsp|split; constructor|].
  apply split_on_chars. exact H.
Qed.

(** X1: no statement holds a newline: the lines of a statement are joined
    with single spaces. *)
Theorem statements_on_one_line (sql_content : str) :
  exists qs : list str,
    split_sql_queries sql_content = Ok qs
    /\ Forall (fun q => no_char LF q = true) qs.
Proof.
  exists (finish (run sql_content)). split; [apply split_sql_queries_run|].
  apply (result_chars_ok (fun c => negb (c =? LF)%N)); [reflexivity|].
  intros c _ Hc. apply negb_true_iff, N.eqb_neq. exact Hc.
Qed.

(** X2: the scanner invents nothing: every character of every statement
    is a space or a character of the input. *)
Theorem statements_made_of_input (sql_content : str) :
  exists qs : list str,
    split_sql_queries sql_content = Ok qs
    /\ Forall (Forall (fun c => c = SPACE \/ In c sql_content)) qs.
Proof.
  exists (finish (run sql_content)). split; [apply split_sql_queries_run|].
  pose proof (result_chars_ok
                (fun c => (c =? SPACE)%N || existsb (N.eqb c) sql_content)
                sql_content eq_refl) as H.
  assert (Hin : forall c, In c sql_content -> c <> LF ->
                  (c =? SPACE)%N || existsb (N.eqb c) sql_content = true).
  { intros c Hc _. apply orb_true_iff. right. apply existsb_exists.
    exists c. split; [exact Hc|apply N.eqb_refl]. }
  specialize (H Hin). unfold statements_of in H.
  rewrite Forall_forall in H. apply Forall_forall. intros q Hq.
  specialize (H q Hq). rewrite forallb_forall in H.
  apply Forall_forall. intros c Hc. specialize (H c Hc).
  apply orb_true_iff in H. destruct H as [H|H].
  - left. apply N.eqb_eq. exact H.
  - right. apply existsb_exists in H. destruct H as (d & Hd & E).
    apply N.eqb_eq in E. subst d. exact Hd.
Qed.

(** ** How many statements *)

Lemma count_char_app a s t :
  count_char a (s ++ t) = count_char a s + count_char a t.
Proof. unfold count_char. rewrite filter_app, length_app. reflexivity. Qed.

Lemma count_char_strip a s : count_char a (strip s) <= count_char a s.
Proof.
  destruct (strip_infix s) as (l & r & E). rewrite E at 2.
  rewrite !count_char_app. lia.
Qed.

Lemma length_emit cq qs : length (emit cq qs) <= length qs + 1.
Proof.
  unfold emit. destruct (truthy (full_query cq)); [|lia].
  rewrite length_app. simpl. lia.
Qed.

Lemma count_char_cons_le a c s : count_char a s <= count_char a (c :: s).
Proof. pose proof (count_char_app a [c] s) as E. cbn [app] in E. lia. Qed.

Lemma count_char_cons_same a s : count_char a (a :: s) = S (count_char a s).
Proof. unfold count_char. cbn [filter]. rewrite N.eqb_refl. reflexivity. Qed.

(** A statement is emitted only at a [;]. *)
Lemma scan_queries_count rest : forall st done,
  length (queries (fst (scan st done rest)))
  <= length (queries st) + count_char SEMI rest.
Proof.
  revert rest.
  apply (scan_cases (fun st done rest =>
           length (queries (fst (scan st done rest)))
           <= length (queries st) + count_char SEMI rest)).
  - intros st done. cbn [scan fst]. lia.
  - intros st done c rest Hq Hc IH. rewrite scan_quote by assumption.
    rewrite queries_quote_step in IH.
    pose proof (count_char_cons_le SEMI c rest). lia.
  - intros st done rest Hs. rewrite scan_dash by assumption.
    cbn [fst set_comment queries]. lia.
  - intros st done rest Hs IH. rewrite scan_close by assumption.
    cbn [set_comment queries] in IH.
    pose proof (count_char_app SEMI [STAR; SLASH] rest) as E.
    cbn [app] in E. lia.
  - intros st done rest Hs IH. rewrite scan_open by assumption.
    cbn [set_comment queries] in IH.
    pose proof (count_char_app SEMI [SLASH; STAR] rest) as E.
    cbn [app] in E. lia.
  - intros st done rest Hs Hc IH. rewrite scan_semi by assumption.
    cbn [flush queries] in IH. rewrite count_char_cons_same.
    pose proof (length_emit (current_query st ++ [done]) (queries st)). lia.
  - intros st done c rest H1 H2 H3 H4 H5 IH.
    rewrite scan_plain by assumption.
    pose proof (count_char_cons_le SEMI c rest). lia.
Qed.

Lemma step_line_queries_count st raw :
  length (queries (step_line st raw))
  <= length (queries st) + count_char SEMI raw.
Proof.
  unfold step_line.
  destruct (negb (truthy (strip raw))); [lia|].
  destruct (startswith [DASH; DASH] (strip raw)); [lia|].
  pose proof (scan_queries_count (strip raw) st []) as H.
  pose proof (count_char_strip SEMI raw) as H'.
  destruct (negb (in_comment (fst (scan st [] (strip raw)))));
    cbn [append_current queries]; lia.
Qed.

(** The delimiters of a text are the delimiters of its lines. *)
Lemma count_char_lines s :
  fold_right (fun l n => count_char SEMI l + n) 0 (split_on LF s)
  = count_char SEMI s.
Proof.
  induction s as [|c s IH]; [reflexivity|]. cbn [split_on].
  destruct (c =? LF)%N eqn:E.
  - apply N.eqb_eq in E. subst c. cbn [fold_right]. rewrite IH. reflexivity.
  - destruct (split_on_nonempty LF s) as (p & ps & Ep). rewrite Ep in *.
    cbn [fold_right] in *.
    pose proof (count_char_app SEMI [c] p) as E1.
    pose proof (count_char_app SEMI [c] s) as E2. cbn [app] in E1, E2. lia.
Qed.

Lemma fold_queries_count lines : forall st,
  length (queries (fold_left step_line lines st))
  <= length (queries st)
     + fold_right (fun l n => count_char SEMI l + n) 0 lines.
Proof.
  induction lines as [|l lines IH]; intros st; cbn [fold_left fold_right]; [lia|].
  pose proof (IH (step_line st l)). pose proof (step_line_queries_count st l).
  lia.
Qed.

(** X3: there is at most one statement more than there are [;] in the
    input; an input without [;] gives at most one statement. *)
Theorem statements_bounded_by_delimiters (sql_content : str) :
  exists qs : list str,
    split_sql_queries sql_content = Ok qs
    /\ length qs <= count_char SEMI sql_content + 1.
Proof.
  exists (finish (run sql_content)). split; [apply split_sql_queries_run|].
  pose proof (fold_queries_count (split_on LF sql_content) initial) as H.
  rewrite count_char_lines in H. fold (run sql_content) in H.
  cbn [initial queries length] in H. unfold finish.
  destruct (truthy (current_query (run sql_content))
            && negb (in_comment (run sql_content))); [|lia].
  pose proof (length_emit (current_query (run sql_content))
                (queries (run sql_content))). lia.
Qed.

(** ** Lines *)

Lemma step_line_skipped st raw : skipped raw = true -> step_line st raw = st.
Proof.
  unfold skipped, step_line. intros H.
  destruct (negb (truthy (strip raw))); [reflexivity|].
  cbn [orb] in H. rewrite H. reflexivity.
Qed.

(** ['\n'.join(ls).split('\n')] gives [ls] back. *)
Lemma split_on_join ls :
  ls <> [] -> lines_ok ls -> split_on LF (join [LF] ls) = ls.
Proof.
  induction ls as [|l ls IH]; intros Hne Hl; [contradiction|].
  inversion Hl as [|? ? Hl1 Hl2]; subst. cbn [join].
  destruct ls as [|l' ls]; [apply split_on_no_sep; exact Hl1|].
  cbn [app]. rewrite split_on_app_sep by exact Hl1.
  rewrite IH; [reflexivity|discriminate|exact Hl2].
Qed.

Lemma run_join ls :
  lines_ok ls -> run (join [LF] ls) = fold_left step_line ls initial.
Proof.
  intros Hl. unfold run. destruct ls as [|l ls]; [reflexivity|].
  rewrite split_on_join; [reflexivity|discriminate|exact Hl].
Qed.

Lemma rstrip_idem s : rstrip (rstrip s) = rstrip s.
Proof. unfold rstrip. rewrite rev_involutive, lstrip_idem. reflexivity. Qed.

Lemma strip_idem s : strip (strip s) = strip s.
Proof.
  unfold strip. rewrite lstrip_rstrip, lstrip_idem, rstrip_idem. reflexivity.
Qed.

Lemma step_line_strip st raw : step_line st (strip raw) = step_line st raw.
Proof. unfold step_line. rewrite strip_idem. reflexivity. Qed.

Lemma fold_step_line_strip ls : forall st,
  fold_left step_line (map strip ls) st = fold_left step_line ls st.
Proof.
  induction ls as [|l ls IH]; intros st; [reflexivity|].
  cbn [map fold_left]. rewrite step_line_strip. apply IH.
Qed.

Lemma lines_ok_strip ls : lines_ok ls -> lines_ok (map strip ls).
Proof.
  unfold lines_ok. rewrite !Forall_forall. intros H l Hl.
  apply in_map_iff in Hl. destruct Hl as (l' & <- & Hl').
  apply no_char_strip, H, Hl'.
Qed.

(** X4: a blank line, or a line that starts with [--] once stripped, can
    be taken out of the input, wherever it stands, without any change to
    the statements returned (also when it stands inside a literal or a
    block comment that spans lines). *)
Theorem skipped_line_changes_nothing (before after : list str) (raw : str) :
  lines_ok (before ++ raw :: after) ->
  skipped raw = true ->
  split_sql_queries (join [LF] (before ++ raw :: after))
  = split_sql_queries (join [LF] (before ++ after)).
Proof.
  intros Hl Hs. rewrite !split_sql_queries_run.
  assert (Hl' : lines_ok (before ++ after)).
  { unfold lines_ok in *. rewrite Forall_app in *. destruct Hl as [H1 H2].
    inversion H2; subst. auto. }
  rewrite !run_join by assumption.
  rewrite !fold_left_app. cbn [fold_left].
  rewrite step_line_skipped by exact Hs. reflexivity.
Qed.

Lemma skipped_line_changes_nothing_witness :
  split_sql_queries
    (join [LF] [lit "SELECT 1"; lit "   -- the table"; lit "FROM t;"])
  = split_sql_queries (join [LF] [lit "SELECT 1"; lit "FROM t;"]).
Proof.
  apply (skipped_line_changes_nothing
           [lit "SELECT 1"] [lit "FROM t;"] (lit "   -- the table")).
  - repeat constructor.
  - reflexivity.
Defined.

(** X5: the white space around each line does not count: stripping every
    line of the input changes none of the statements returned. *)
Theorem indentation_changes_nothing (ls : list str) :
  lines_ok ls ->
  split_sql_queries (join [LF] (map strip ls))
  = split_sql_queries (join [LF] ls).
Proof.
  intros Hl. rewrite !split_sql_queries_run.
  rewrite !run_join by (assumption || apply lines_ok_strip; assumption).
  rewrite fold_step_line_strip. reflexivity.
Qed.

Lemma indentation_changes_nothing_witness :
  split_sql_queries (join [LF] [lit "SELECT 1"; lit "FROM t;"])
  = split_sql_queries (join [LF] [lit "  SELECT 1  "; lit "    FROM t;  "]).
Proof.
  apply (indentation_changes_nothing [lit "  SELECT 1  "; lit "    FROM t;  "]).
  repeat constructor.
Defined.

(** X6: an input whose lines are all blank or start with [--] gives no
    statement. *)
Theorem only_skipped_lines_give_nothing (sql_content : str) :
  Forall (fun l => skipped l = true) (split_on LF sql_content) ->
  split_sql_queries sql_content = Ok [].
Proof.
  intros H. rewrite split_sql_queries_run. f_equal. unfold run.
  assert (E : forall ls st, Forall (fun l => skipped l = true) ls ->
                fold_left step_line ls st = st).
  { induction ls as [|l ls IH]; intros st Hl; [reflexivity|].
    inversion Hl; subst. cbn [fold_left].
    rewrite step_line_skipped by assumption. apply IH. assumption. }
  rewrite E by exact H. reflexivity.
Qed.

Lemma only_skipped_lines_give_nothing_witness :
  split_sql_queries
    (lit "-- first; second;" ++ LF :: lit "   " ++ LF :: lit "  -- third;")
  = Ok [].
Proof.
  apply only_skipped_lines_give_nothing. repeat constructor.
Defined.

(** ** The flags *)

Lemma flags_ok_initial : flags_ok initial.
Proof. unfold flags_ok. cbn. repeat split; try discriminate; reflexivity. Qed.

Lemma flags_ok_quote_step c st :
  is_quote c = true -> in_comment st = false ->
  flags_ok st -> flags_ok (quote_step c st).
Proof.
  intros Hq Hc (H1 & H2 & H3). unfold quote_step.
  destruct (in_string st && same_quote (string_char st) c) eqn:E1.
  - unfold flags_ok. cbn. repeat split; try discriminate; reflexivity.
  - destruct (negb (in_string st)) eqn:E2.
    + unfold flags_ok. cbn. repeat split; try discriminate; eauto.
    + repeat split; assumption.
Qed.

Lemma flags_ok_set_comment b st :
  in_string st = false -> flags_ok st -> flags_ok (set_comment b st).
Proof.
  intros Hs (H1 & H2 & H3). unfold flags_ok. cbn.
  repeat split; try assumption. intros E. congruence.
Qed.

Lemma flags_ok_flush part st : flags_ok st -> flags_ok (flush part st).
Proof. exact (fun H => H). Qed.

(** One iteration of the loop keeps the flags consistent, however it
    ends. *)
Lemma loop_body_flags_ok st line i fl :
  flags_ok st -> loop_body st line i = Ok fl ->
  match fl with
  | Next st' _ _ => flags_ok st'
  | Break st' _ => flags_ok st'
  end.
Proof.
  intros Hok. unfold loop_body, bind.
  destruct (getitem line i) as [c|e]; [|discriminate].
  destruct (is_quote c && negb (in_comment st)) eqn:Eq.
  { apply andb_prop in Eq. destruct Eq as [Eq Ec]. apply negb_true_iff in Ec.
    pose proof (flags_ok_quote_step c st Eq Ec Hok) as H. unfold quote_step in H.
    destruct (in_string st && same_quote (string_char st) c).
    - intros [= <-]. exact H.
    - destruct (negb (in_string st)); intros [= <-]; exact H. }
  destruct (marker DASH DASH c line i) as [dashes|]; [|discriminate].
  destruct (dashes && negb (in_string st)) eqn:Ed.
  { apply andb_prop in Ed. destruct Ed as [_ Es]. apply negb_true_iff in Es.
    intros [= <-]. apply flags_ok_set_comment; assumption. }
  destruct (marker STAR SLASH c line i) as [closing|]; [|discriminate].
  destruct (closing && negb (in_string st)) eqn:Ecl.
  { apply andb_prop in Ecl. destruct Ecl as [_ Es]. apply negb_true_iff in Es.
    intros [= <-]. apply flags_ok_set_comment; assumption. }
  destruct (marker SLASH STAR c line i) as [opening|]; [|discriminate].
  destruct (opening && negb (in_string st)) eqn:Eo.
  { apply andb_prop in Eo. destruct Eo as [_ Es]. apply negb_true_iff in Es.
    intros [= <-]. apply flags_ok_set_comment; assumption. }
  destruct ((c =? SEMI)%N && negb (in_string st) && negb (in_comment st));
    intros [= <-]; [apply flags_ok_flush|]; exact Hok.
Qed.

Lemma reaches_flags_ok st line i st' line' i' :
  reaches st line i st' line' i' -> flags_ok st -> flags_ok st'.
Proof.
  induction 1 as [|st line i st1 line1 i1 st2 line2 i2 Hi Hb _ IH];
    intros Hok; [exact Hok|].
  apply IH. exact (loop_body_flags_ok st line i _ Hok Hb).
Qed.

Lemma while_loop_flags_ok st line i st' line' :
  flags_ok st -> while_loop st line i = Ok (st', line') -> flags_ok st'.
Proof.
  funelim (while_loop st line i); try rewrite <- Heqcall; intros Hok.
  - intros [= <- <-]. exact Hok.
  - match goal with
    | Hb : loop_body _ _ _ = Ok (Next _ _ _) |- _ =>
        pose proof (loop_body_flags_ok _ _ _ _ Hok Hb) as Hok'
    end.
    eauto.
  - match goal with
    | Hb : loop_body _ _ _ = Ok (Break _ _) |- _ =>
        pose proof (loop_body_flags_ok _ _ _ _ Hok Hb) as Hok'
    end.
    intros [= <- <-]. exact Hok'.
  - discriminate.
Qed.

Lemma for_body_flags_ok st raw st' :
  flags_ok st -> for_body st raw = Ok st' -> flags_ok st'.
Proof.
  intros Hok. unfold for_body.
  destruct (negb (truthy (strip raw))); [intros [= <-]; exact Hok|].
  destruct (startswith [DASH; DASH] (strip raw)); [intros [= <-]; exact Hok|].
  destruct (while_loop st (strip raw) 0) as [[st1 line1]|e] eqn:E;
    [|discriminate].
  pose proof (while_loop_flags_ok _ _ _ _ _ Hok E) as H1. cbn [bind fst snd].
  destruct (negb (in_comment st1)); intros [= <-]; exact H1.
Qed.

Lemma for_each_flags_ok lines : forall st st',
  flags_ok st -> for_each st lines = Ok st' -> flags_ok st'.
Proof.
  induction lines as [|raw lines IH]; intros st st' Hok; cbn [for_each].
  - intros [= <-]. exact Hok.
  - destruct (for_body st raw) as [st1|e] eqn:E; [|discriminate].
    cbn [bind]. apply IH. exact (for_body_flags_ok _ _ _ Hok E).
Qed.

(** X7: at every loop test of every line of every input, [in_string]
    and [in_comment] are not both set, [string_char] is a quote character
    while [in_string] is set and [None] while it is not. *)
Theorem flags_stay_consistent
  (lines : list str) (raw : str) (st st' : state) (line' : str) (i' : nat) :
  for_each initial lines = Ok st ->
  reaches st (strip raw) 0 st' line' i' ->
  flags_ok st'.
Proof.
  intros Hf Hr. apply (reaches_flags_ok _ _ _ _ _ _ Hr).
  exact (for_each_flags_ok lines initial st flags_ok_initial Hf).
Qed.

Lemma flags_stay_consistent_witness :
  flags_ok (set_string true (Some SQUOTE) initial).
Proof.
  apply (flags_stay_consistent [lit "-- header"] (lit "a'b;")
           initial (set_string true (Some SQUOTE) initial) (lit "a'b;") 2).
  - vm_compute. reflexivity.
  - do 2 (eapply reaches_next;
            [vm_compute; lia|vm_compute; reflexivity|]).
    apply reaches_here.
Defined.

(** ** Lines added to an input *)

(** ['\n'] between two texts: the lines of the first, then the lines of
    the second. *)
Lemma split_on_app sep a b :
  split_on sep (a ++ sep :: b) = split_on sep a ++ split_on sep b.
Proof.
  induction a as [|c a IH]; cbn [app split_on].
  - rewrite N.eqb_refl. reflexivity.
  - destruct (c =? sep)%N; [rewrite IH; reflexivity|].
    rewrite IH. destruct (split_on_nonempty sep a) as (p & ps & E).
    rewrite E. reflexivity.
Qed.

Lemma run_app a b :
  run (a ++ LF :: b) = fold_left step_line (split_on LF b) (run a).
Proof. unfold run. rewrite split_on_app, fold_left_app. reflexivity. Qed.

(** X8: statements are never taken back.  Of the statements of an input
    all but possibly the last one (the one flushed at the end of the
    input) are, in order, the first statements of any input that adds
    lines to it. *)
Theorem statements_kept_when_lines_added (a b : str) :
  exists kept last more : list str,
    split_sql_queries a = Ok (kept ++ last)
    /\ length last <= 1
    /\ split_sql_queries (a ++ LF :: b) = Ok (kept ++ more).
Proof.
  exists (queries (run a)).
  assert (Hfin : forall st, exists last,
             finish st = queries st ++ last /\ length last <= 1).
  { intros st. unfold finish, emit.
    destruct (truthy (current_query st) && negb (in_comment st));
      [|exists []; rewrite app_nil_r; auto].
    destruct (truthy (full_query (current_query st)));
      [eexists; split; [reflexivity|simpl; lia]|].
    exists []. rewrite app_nil_r. auto. }
  destruct (Hfin (run a)) as (last & E1 & Hlast).
  pose (P := fun qs : list str => exists more, qs = queries (run a) ++ more).
  assert (HP : forall cq qs, P qs -> P (emit cq qs)).
  { intros cq qs [more ->]. unfold emit, P.
    destruct (truthy (full_query cq)); [|eauto].
    rewrite <- app_assoc. eauto. }
  assert (H0 : P (queries (run a))) by (exists []; rewrite app_nil_r; reflexivity).
  pose proof (finish_inv P HP _
                (fold_queries_inv P HP (split_on LF b) (run a) H0)) as [more E2].
  exists last, more. rewrite !split_sql_queries_run, run_app, E1, E2. auto.
Qed.

(** ** One input after another *)

Lemma full_query_blanks blanks cq :
  Forall (fun p => p = []) blanks ->
  full_query (blanks ++ cq) = full_query cq.
Proof.
  induction 1 as [|p blanks -> _ IH]; [reflexivity|].
  rewrite <- IH. unfold full_query. cbn [app join].
  destruct (blanks ++ cq) as [|p' l]; [reflexivity|]. reflexivity.
Qed.

Lemma emit_ahead Q blanks cq qs :
  Forall (fun p => p = []) blanks ->
  emit (blanks ++ cq) (Q ++ qs) = Q ++ emit cq qs.
Proof.
  intros Hb. unfold emit. rewrite (full_query_blanks blanks cq Hb).
  destruct (truthy (full_query cq)); [symmetry; apply app_assoc|reflexivity].
Qed.

Lemma ahead_by_quote_step Q c st1 st2 :
  ahead_by Q st1 st2 -> ahead_by Q (quote_step c st1) (quote_step c st2).
Proof.
  intros (Hq & Hs & Hsc & Hc & Hcq). unfold quote_step. rewrite Hs, Hsc.
  destruct (in_string st2 && same_quote (string_char st2) c);
    [repeat split; assumption|].
  destruct (negb (in_string st2)); repeat split; assumption.
Qed.

Lemma ahead_by_set_comment Q b st1 st2 :
  ahead_by Q st1 st2 -> ahead_by Q (set_comment b st1) (set_comment b st2).
Proof. intros (Hq & Hs & Hsc & Hc & Hcq). repeat split; assumption. Qed.

Lemma ahead_by_flush Q part st1 st2 :
  ahead_by Q st1 st2 -> ahead_by Q (flush part st1) (flush part st2).
Proof.
  intros (Hq & Hs & Hsc & Hc & blanks & Hb & Hcq).
  unfold ahead_by. cbn [flush queries current_query in_string string_char in_comment].
  repeat split; try assumption.
  - rewrite Hq, Hcq, <- app_assoc. apply emit_ahead. exact Hb.
  - exists []. split; [constructor|reflexivity].
Qed.

(** The scanner after some complete statements does on a line what it
    does from the start. *)
Lemma scan_ahead Q rest : forall st2 done st1,
  ahead_by Q st1 st2 ->
  ahead_by Q (fst (scan st1 done rest)) (fst (scan st2 done rest))
  /\ snd (scan st1 done rest) = snd (scan st2 done rest).
Proof.
  revert rest.
  apply (scan_cases (fun st2 done rest => forall st1,
           ahead_by Q st1 st2 ->
           ahead_by Q (fst (scan st1 done rest)) (fst (scan st2 done rest))
           /\ snd (scan st1 done rest) = snd (scan st2 done rest))).
  - intros st2 done st1 H. auto.
  - intros st2 done c rest Hq Hc IH st1 H.
    pose proof H as (_ & Hs & Hsc & Hc1 & _).
    rewrite !scan_quote by congruence.
    apply IH, ahead_by_quote_step, H.
  - intros st2 done rest Hs st1 H.
    pose proof H as (_ & Hs1 & _).
    rewrite !scan_dash by congruence.
    split; [apply ahead_by_set_comment, H|reflexivity].
  - intros st2 done rest Hs IH st1 H.
    pose proof H as (_ & Hs1 & _).
    rewrite !scan_close by congruence. apply IH, ahead_by_set_comment, H.
  - intros st2 done rest Hs IH st1 H.
    pose proof H as (_ & Hs1 & _).
    rewrite !scan_open by congruence. apply IH, ahead_by_set_comment, H.
  - intros st2 done rest Hs Hc IH st1 H.
    pose proof H as (_ & Hs1 & _ & Hc1 & _).
    rewrite !scan_semi by congruence. apply IH, ahead_by_flush, H.
  - intros st2 done c rest H1 H2 H3 H4 H5 IH st1 H.
    pose proof H as (_ & Hs1 & _ & Hc1 & _).
    rewrite (scan_plain st2) by assumption.
    rewrite (scan_plain st1)
      by (unfold semi_here in *; rewrite ?Hs1, ?Hc1; assumption).
    apply IH, H.
Qed.

Lemma step_line_ahead Q st1 st2 raw :
  ahead_by Q st1 st2 -> ahead_by Q (step_line st1 raw) (step_line st2 raw).
Proof.
  intros H. unfold step_line.
  destruct (negb (truthy (strip raw))); [exact H|].
  destruct (startswith [DASH; DASH] (strip raw)); [exact H|].
  destruct (scan_ahead Q (strip raw) st2 [] st1 H) as [H' E].
  pose proof H' as (Hq & Hs & Hsc & Hc & blanks & Hb & Hcq).
  rewrite Hc, E.
  destruct (negb (in_comment (fst (scan st2 [] (strip raw))))); [|exact H'].
  unfold ahead_by.
  cbn [append_current queries current_query in_string string_char in_comment].
  repeat split; try assumption.
  exists blanks. split; [exact Hb|]. rewrite Hcq, app_assoc. reflexivity.
Qed.

Lemma fold_ahead Q lines : forall st1 st2,
  ahead_by Q st1 st2 ->
  ahead_by Q (fold_left step_line lines st1) (fold_left step_line lines st2).
Proof.
  induction lines as [|l lines IH]; intros st1 st2 H; [exact H|].
  cbn [fold_left]. apply IH, step_line_ahead, H.
Qed.

Lemma finish_ahead Q st1 st2 :
  ahead_by Q st1 st2 -> finish st1 = Q ++ finish st2.
Proof.
  intros (Hq & Hs & Hsc & Hc & blanks & Hb & Hcq). unfold finish.
  rewrite Hc, Hcq, Hq.
  destruct (negb (in_comment st2)); [|rewrite !andb_false_r; reflexivity].
  rewrite !andb_true_r.
  destruct (current_query st2) as [|p cq] eqn:E.
  - rewrite app_nil_r.
    destruct blanks as [|p blanks]; [reflexivity|]. cbn [truthy].
    rewrite <- (app_nil_r (p :: blanks)), emit_ahead by exact Hb.
    reflexivity.
  - rewrite truthy_app_cons. cbn [truthy]. apply emit_ahead. exact Hb.
Qed.

Lemma run_flags_ok sql_content : flags_ok (run sql_content).
Proof.
  apply (for_each_flags_ok (split_on LF sql_content) initial);
    [apply flags_ok_initial|apply for_each_run].
Qed.

(** X9: when the scanner is at rest after an input (outside literals and
    comments, and nothing but empty strings in the statement under
    construction), the statements of that input followed by further lines
    are its own statements followed by the statements of those lines. *)
Theorem inputs_compose (a b : str) :
  at_rest (run a) ->
  exists qa qb : list str,
    split_sql_queries a = Ok qa
    /\ split_sql_queries b = Ok qb
    /\ split_sql_queries (a ++ LF :: b) = Ok (qa ++ qb).
Proof.
  intros (Hs & Hc & Hb).
  assert (H : ahead_by (queries (run a)) (run a) initial).
  { unfold ahead_by. cbn [initial queries in_string string_char in_comment current_query].
    rewrite app_nil_r. repeat split; try assumption.
    - destruct (run_flags_ok a) as (_ & _ & H3). apply H3. exact Hs.
    - exists (current_query (run a)). rewrite app_nil_r. auto. }
  assert (Ea : finish (run a) = queries (run a)).
  { rewrite (finish_ahead _ _ _ H). apply app_nil_r. }
  exists (finish (run a)), (finish (run b)).
  rewrite !split_sql_queries_run, run_app. repeat split.
  f_equal. rewrite Ea. apply finish_ahead. apply fold_ahead. exact H.
Qed.

Lemma inputs_compose_witness :
  exists qa qb : list str,
    split_sql_queries (lit "SELECT 1;") = Ok qa
    /\ split_sql_queries (lit "SELECT 'x;" ++ LF :: lit "y';") = Ok qb
    /\ split_sql_queries
         (lit "SELECT 1;" ++ LF :: lit "SELECT 'x;" ++ LF :: lit "y';")
       = Ok (qa ++ qb).
Proof.
  apply (inputs_compose (lit "SELECT 1;")
           (lit "SELECT 'x;" ++ LF :: lit "y';")).
  repeat split; repeat constructor.
Defined.

(** * Plain text over several lines *)

Lemma split_on_snoc sep V c : forall ps p,
  (c =? sep)%N = false ->
  split_on sep V = ps ++ [p] ->
  split_on sep (V ++ [c]) = ps ++ [p ++ [c]].
Proof.
  induction V as [|d V IH]; intros ps p Hc; cbn [app split_on].
  - rewrite Hc. destruct ps as [|a [|a' ps]]; intros [= E]; subst p.
    reflexivity.
  - destruct (d =? sep)%N.
    + destruct ps as [|a ps]; cbn [app].
      * intros [= E1 E]. destruct (split_on_nonempty sep V) as (x & xs & Ex).
        rewrite Ex in E. discriminate E.
      * intros [= E1 E]. subst a. rewrite (IH ps p Hc E). reflexivity.
    + destruct (split_on_nonempty sep V) as (p0 & ps0 & E0). rewrite E0.
      destruct ps as [|a ps]; cbn [app].
      * intros [= E1 E2]. subst p ps0. rewrite (IH [] p0 Hc E0). reflexivity.
      * intros [= E1 E2]. subst a ps0.
        rewrite (IH (p0 :: ps) p Hc E0). reflexivity.
Qed.

Lemma split_on_snoc_sep sep V :
  split_on sep (V ++ [sep]) = split_on sep V ++ [[]].
Proof. apply (split_on_app sep V []). Qed.

Lemma filter_strip_snoc ps p :
  filter truthy (map strip (ps ++ [p]))
  = filter truthy (map strip ps) ++ filter truthy [strip p].
Proof. rewrite map_app, filter_app. reflexivity. Qed.

(** Over plain text the scanner splits as [split_on] does. *)
Lemma scan_plain_ok text : forall st done V,
  plain_ok V st done ->
  no_quotes text = true -> no_markers text = true ->
  plain_ok (V ++ text) (fst (scan st done text)) (snd (scan st done text)).
Proof.
  induction text as [|c t IH]; intros st done V Hok Hq Hm.
  - cbn [scan fst snd]. rewrite app_nil_r. exact Hok.
  - cbn [no_quotes forallb] in Hq. apply andb_prop in Hq.
    destruct Hq as [Hq Hq']. apply negb_true_iff in Hq.
    apply no_markers_cons in Hm. destruct Hm as (H1 & H2 & H3 & Hm).
    destruct Hok as (Hs & Hc & ps & Ev & Eq).
    replace (V ++ c :: t) with ((V ++ [c]) ++ t)
      by (rewrite <- app_assoc; reflexivity).
    destruct (c =? SEMI)%N eqn:E.
    + apply N.eqb_eq in E. subst c. rewrite scan_semi by assumption.
      apply IH; [|exact Hq'|exact Hm].
      repeat split; [exact Hs|exact Hc|].
      exists (ps ++ [buffer st done]). split.
      * rewrite split_on_snoc_sep, Ev. reflexivity.
      * cbn [flush queries]. rewrite emit_filter, filter_strip_snoc, Eq.
        reflexivity.
    + rewrite scan_plain;
        [|rewrite ?Hq, ?H1, ?H2, ?H3; try reflexivity..].
      * apply IH; [|exact Hq'|exact Hm].
        repeat split; [exact Hs|exact Hc|].
        exists ps. split; [|exact Eq].
        rewrite buffer_app. apply split_on_snoc; assumption.
      * unfold semi_here. rewrite E. reflexivity.
Qed.

Lemma plain_lines_enter T st :
  plain_lines_ok T st ->
  plain_ok (match T with [] => [] | _ :: _ => join [SPACE] T ++ [SPACE] end)
    st [].
Proof.
  intros (Hs & Hc & H0 & H1 & ps & Ev & Eq).
  repeat split; [exact Hs|exact Hc|]. exists ps. split; [|exact Eq].
  unfold buffer. rewrite join_snoc. destruct T as [|l T].
  - rewrite (H0 eq_refl) in *. exact Ev.
  - destruct (current_query st) as [|p cq] eqn:E;
      [exfalso; apply H1; [discriminate|reflexivity]|].
    rewrite app_nil_r. apply split_on_snoc; [reflexivity|exact Ev].
Qed.

Lemma plain_lines_leave T line st done :
  plain_ok (match T with [] => [] | _ :: _ => join [SPACE] T ++ [SPACE] end
            ++ line) st done ->
  plain_lines_ok (T ++ [line]) (append_current done st).
Proof.
  intros (Hs & Hc & ps & Ev & Eq).
  unfold plain_lines_ok.
  cbn [append_current in_string in_comment current_query queries].
  repeat split; try assumption.
  - intros E. destruct T; discriminate E.
  - intros _ E. destruct (current_query st); discriminate E.
  - exists ps. split; [|exact Eq]. fold (buffer st done).
    rewrite <- Ev, join_snoc. destruct T; [reflexivity|].
    rewrite <- app_assoc. reflexivity.
Qed.

Lemma step_line_plain T st raw :
  plain_lines_ok T st ->
  no_quotes raw = true -> no_markers raw = true ->
  plain_lines_ok (T ++ filter truthy [strip raw]) (step_line st raw).
Proof.
  intros Hok Hq Hm. unfold step_line. cbn [filter].
  destruct (truthy (strip raw)) eqn:Et; cbn [negb];
    [|rewrite app_nil_r; exact Hok].
  pose proof (startswith_dashes_no_pair (strip raw) []
                (no_markers_dashes _ (no_markers_strip _ Hm)) eq_refl) as Hsw.
  rewrite app_nil_r in Hsw. rewrite Hsw.
  pose proof (scan_plain_ok (strip raw) st [] _ (plain_lines_enter T st Hok)
                (no_quotes_strip _ Hq) (no_markers_strip _ Hm)) as Hscan.
  pose proof Hscan as (_ & Hc & _). rewrite Hc. cbn [negb].
  apply plain_lines_leave. exact Hscan.
Qed.

Lemma fold_step_line_plain lines : forall T st,
  plain_lines_ok T st ->
  Forall (fun l => no_quotes l = true /\ no_markers l = true) lines ->
  plain_lines_ok (T ++ filter truthy (map strip lines))
    (fold_left step_line lines st).
Proof.
  induction lines as [|l lines IH]; intros T st Hok Hl; cbn [fold_left map].
  - cbn [filter]. rewrite app_nil_r. exact Hok.
  - inversion Hl as [|? ? [Hq Hm] Hl']; subst.
    replace (T ++ filter truthy (strip l :: map strip lines))
      with ((T ++ filter truthy [strip l]) ++ filter truthy (map strip lines))
      by (rewrite <- app_assoc; f_equal;
          symmetry; apply (filter_app truthy [_] _)).
    apply IH; [|exact Hl']. apply step_line_plain; assumption.
Qed.

Lemma plain_lines_finish T st :
  plain_lines_ok T st -> finish st = split_trim_drop (join [SPACE] T).
Proof.
  intros (Hs & Hc & H0 & H1 & ps & Ev & Eq).
  unfold finish, split_trim_drop. rewrite Hc, Ev, filter_strip_snoc, <- Eq.
  destruct (current_query st) as [|p cq] eqn:E.
  - cbn. rewrite app_nil_r. reflexivity.
  - cbn [truthy negb andb]. apply emit_filter.
Qed.

Lemma split_on_lines_plain s :
  no_quotes s = true -> no_markers s = true ->
  Forall (fun l => no_quotes l = true /\ no_markers l = true) (split_on LF s).
Proof.
  intros Hq Hm.
  pose proof (split_on_lines_no_markers s Hm) as H1.
  assert (H2 : statements_of (fun c => negb (is_quote c)) (split_on LF s)).
  { apply split_on_chars. intros c Hc _.
    unfold no_quotes in Hq. rewrite forallb_forall in Hq. apply Hq. exact Hc. }
  unfold statements_of in H2. rewrite Forall_forall in *.
  intros l Hl. split; [apply H2; exact Hl|apply H1; exact Hl].
Qed.

Lemma plain_lines_initial : plain_lines_ok [] initial.
Proof.
  unfold plain_lines_ok. cbn. repeat split; try reflexivity.
  - intros H. contradiction.
  - exists []. split; reflexivity.
Qed.

(** C8, amended: on every input with no quote character and no comment
    marker, of one line or of several, [split_sql_queries] returns what
    the reference returns (split on [;], trim each piece, drop the empty
    pieces) once the lines of the input are joined as the scanner joins
    them: each line stripped, the empty ones left out, a single space
    between two lines.  On an input of one line this is the reference on
    the input itself. *)
Theorem plain_text_is_naive_split (s : str) :
  no_quotes s = true ->
  no_markers s = true ->
  split_sql_queries s = Ok (split_joined s)
  /\ (no_char LF s = true -> split_joined s = split_trim_drop s).
Proof.
  intros Hq Hm. split.
  - rewrite split_sql_queries_run. f_equal. unfold run, split_joined, join_lines.
    apply (plain_lines_finish
             (filter truthy (map strip (split_on LF s)))).
    apply (fold_step_line_plain (split_on LF s) [] initial
             plain_lines_initial).
    apply split_on_lines_plain; assumption.
  - intros Hlf. unfold split_joined, join_lines.
    rewrite split_on_no_sep by exact Hlf. cbn [map filter].
    destruct (truthy (strip s)) eqn:Et; cbn [join].
    + apply split_trim_drop_strip.
    + rewrite <- (split_trim_drop_strip s).
      destruct (strip s); [reflexivity|discriminate Et].
Qed.

(** Two statements of two lines each, and a scenario of the
    specification on one line. *)
Lemma plain_text_is_naive_split_witness :
  split_sql_queries
    (lit "SELECT a" ++ LF :: lit "  FROM t;" ++ LF :: LF
     :: lit "SELECT b" ++ LF :: lit "FROM u ;" ++ [LF])
  = Ok [lit "SELECT a FROM t"; lit "SELECT b FROM u"]
  /\ split_sql_queries (lit "SELECT 1; SELECT 2; ")
     = Ok [lit "SELECT 1"; lit "SELECT 2"].
Proof.
  split.
  - rewrite (proj1 (plain_text_is_naive_split
                      (lit "SELECT a" ++ LF :: lit "  FROM t;" ++ LF :: LF
                       :: lit "SELECT b" ++ LF :: lit "FROM u ;" ++ [LF])
                      eq_refl eq_refl)).
    vm_compute. reflexivity.
  - rewrite (proj1 (plain_text_is_naive_split (lit "SELECT 1; SELECT 2; ")
                      eq_refl eq_refl)).
    vm_compute. reflexivity.
Defined.

(** * Text that stands on its own *)



Lemma marker_char_parts c :
  marker_char c = false ->
  (c =? DASH)%N = false /\ (c =? STAR)%N = false /\ (c =? SLASH)%N = false.
Proof.
  unfold marker_char. intros H.
  apply orb_false_elim in H. destruct H as [H H3].
  apply orb_false_elim in H. destruct H as [H1 H2]. auto.
Qed.

(** What follows a text does not change the markers met in it, when it
    does not start with a character of a marker. *)
Lemma pair_here_border a b c t rest :
  marker_char b = true -> starts_marker rest = false ->
  pair_here a b c (t ++ rest) = pair_here a b c t.
Proof.
  intros Hb Hr. destruct t as [|d t]; [|reflexivity]. cbn [app].
  destruct rest as [|d rest]; [reflexivity|]. cbn [pair_here starts_marker] in *.
  destruct (d =? b)%N eqn:E; [|apply andb_false_r].
  apply N.eqb_eq in E. subst d. congruence.
Qed.




Lemma self_contained_flags s :
  self_contained s = true -> flag_scan false None false s = Some (false, None, false).
Proof.
  unfold self_contained.
  destruct (flag_scan false None false s) as [[[[|] [q|]] [|]]|];
    try discriminate. reflexivity.
Qed.

(** Over a text followed by something that starts with no character of a
    marker, the scanner emits nothing and its flags follow
    [flag_scan]. *)
Lemma scan_flag_scan : forall text st done rest b' q' k',
  starts_marker rest = false ->
  flag_scan (in_string st) (string_char st) (in_comment st) text
  = Some (b', q', k') ->
  scan st done (text ++ rest)
  = scan (set_comment k' (set_string b' q' st)) (done ++ text) rest.
Proof.
  assert (H : forall n text, length text <= n ->
            forall st done rest b' q' k',
              starts_marker rest = false ->
              flag_scan (in_string st) (string_char st) (in_comment st) text
              = Some (b', q', k') ->
              scan st done (text ++ rest)
              = scan (set_comment k' (set_string b' q' st)) (done ++ text) rest).
  { induction n as [|n IH]; intros text Hn st done rest b' q' k' Hr Hf.
    - destruct text; [|cbn in Hn; lia]. cbn [flag_scan] in Hf.
      inversion Hf; subst. rewrite app_nil_r. destruct st; reflexivity.
    - destruct text as [|c t].
      { cbn [flag_scan] in Hf. inversion Hf; subst. rewrite app_nil_r.
        destruct st; reflexivity. }
      cbn [length] in Hn.
      assert (IH1 : forall st1,
                 queries st1 = queries st ->
                 current_query st1 = current_query st ->
                 flag_scan (in_string st1) (string_char st1) (in_comment st1) t
                 = Some (b', q', k') ->
                 scan st1 (done ++ [c]) (t ++ rest)
                 = scan (set_comment k' (set_string b' q' st))
                     (done ++ c :: t) rest).
      { intros st1 E1 E2 Hf1.
        rewrite (IH t ltac:(lia) st1 (done ++ [c]) rest b' q' k' Hr Hf1).
        rewrite <- app_assoc. unfold set_comment, set_string.
        cbn [queries current_query in_string string_char in_comment].
        rewrite E1, E2. reflexivity. }
      cbn [flag_scan] in Hf. cbn [app].
      destruct (is_quote c && negb (in_comment st)) eqn:Eq.
      { apply andb_prop in Eq. destruct Eq as [Eq Ec].
        apply negb_true_iff in Ec. rewrite scan_quote by assumption.
        unfold quote_step.
        destruct (in_string st && same_quote (string_char st) c);
          [apply IH1; [reflexivity..|exact Hf]|].
        destruct (negb (in_string st));
          apply IH1; try reflexivity; exact Hf. }
      destruct (pair_here DASH DASH c t && negb (in_string st)) eqn:Ed;
        [discriminate Hf|].
      destruct (pair_here STAR SLASH c t && negb (in_string st)) eqn:Ecl.
      { apply andb_prop in Ecl. destruct Ecl as [Ecl Es].
        apply negb_true_iff in Es.
        apply pair_here_true in Ecl. destruct Ecl as [-> [t' ->]].
        cbn [app]. rewrite scan_close by exact Es. cbn [length] in Hn.
        rewrite (IH t' ltac:(lia) (set_comment false st) (done ++ [STAR; SLASH])
                   rest b' q' k' Hr Hf).
        rewrite <- app_assoc. reflexivity. }
      destruct (pair_here SLASH STAR c t && negb (in_string st)) eqn:Eo.
      { apply andb_prop in Eo. destruct Eo as [Eo Es].
        apply negb_true_iff in Es.
        apply pair_here_true in Eo. destruct Eo as [-> [t' ->]].
        cbn [app]. rewrite scan_open by exact Es. cbn [length] in Hn.
        rewrite (IH t' ltac:(lia) (set_comment true st) (done ++ [SLASH; STAR])
                   rest b' q' k' Hr Hf).
        rewrite <- app_assoc. reflexivity. }
      destruct ((c =? SEMI)%N && negb (in_string st) && negb (in_comment st))
        eqn:Es; [discriminate Hf|].
      rewrite scan_plain.
      + apply IH1; [reflexivity..|exact Hf].
      + exact Eq.
      + rewrite pair_here_border by (assumption || reflexivity). exact Ed.
      + rewrite pair_here_border by (assumption || reflexivity). exact Ecl.
      + rewrite pair_here_border by (assumption || reflexivity). exact Eo.
      + exact Es. }
  intros text. apply (H (length text)). lia.
Qed.

(** A text that stands on its own does not start with [--], whatever
    follows it that starts with no [-]. *)
Lemma startswith_dashes_self_contained text rest :
  flag_scan false None false text <> None -> starts_marker rest = false ->
  startswith [DASH; DASH] (text ++ rest) = false.
Proof.
  intros Hf Hr.
  assert (Hrest : forall r, starts_marker r = false -> startswith [DASH] r = false).
  { intros [|d r] H; [reflexivity|].
    cbn [starts_marker] in H. apply marker_char_parts in H.
    destruct H as (H & _). cbn [startswith].
    rewrite N.eqb_sym, H. reflexivity. }
  destruct text as [|c [|d t]]; cbn [app].
  - destruct rest as [|d rest]; [reflexivity|].
    pose proof (Hrest (d :: rest) Hr) as H. cbn [startswith] in H |- *.
    rewrite andb_true_r in H. rewrite H. reflexivity.
  - cbn [startswith]. fold (startswith [DASH] rest).
    rewrite (Hrest rest Hr). apply andb_false_r.
  - cbn [startswith]. rewrite andb_true_r.
    destruct (DASH =? c)%N eqn:E1; [|reflexivity].
    destruct (DASH =? d)%N eqn:E2; [|reflexivity].
    apply N.eqb_eq in E1, E2. subst c d. exfalso. apply Hf. reflexivity.
Qed.

(** A trimmed text that stands on its own, followed by [;], is split
    into itself. *)
Lemma self_contained_split q :
  trimmed q -> no_char LF q = true -> self_contained q = true ->
  split_sql_queries (q ++ [SEMI]) = Ok [q].
Proof.
  intros Ht Hlf Hq. apply self_contained_flags in Hq.
  pose proof (trimmed_strip q Ht) as Hs.
  pose proof (trimmed_lstrip q Ht) as Hl.
  rewrite <- Hs at 2. apply one_statement.
  - exact Hlf.
  - rewrite Hs. destruct Ht as [Hne _]. destruct q; [contradiction|reflexivity].
  - rewrite Hl. apply startswith_dashes_self_contained; [|reflexivity].
    rewrite Hq. discriminate.
  - rewrite Hl.
    rewrite (scan_flag_scan q initial [] [SEMI] false None false)
      by (assumption || reflexivity).
    change (set_comment false (set_string false None initial)) with initial.
    rewrite scan_semi by reflexivity. reflexivity.
Qed.

(** C7, amended: a statement [s] returned for any input is returned
    alone when [s] followed by [;] is split, as soon as [s] stands on
    its own: read from outside any literal or comment it closes every
    literal and block comment it opens, and it holds no [;] outside its
    literals and comments and no [--] outside its literals.  The input
    itself may hold comments and markers of any kind. *)
Theorem statement_resplits (sql_content : str) (qs : list str) (s : str) :
  split_sql_queries sql_content = Ok qs ->
  In s qs ->
  self_contained s = true ->
  split_sql_queries (s ++ [SEMI]) = Ok [s].
Proof.
  intros Hr Hin Hs. rewrite split_sql_queries_run in Hr.
  inversion Hr; subst qs. apply self_contained_split; [| |exact Hs].
  - assert (Hall : Forall trimmed (finish (run sql_content)))
      by (apply result_inv; [apply emit_trimmed|constructor]).
    rewrite Forall_forall in Hall. apply Hall. exact Hin.
  - assert (Hall : statements_of (fun c => negb (c =? LF)%N)
                     (finish (run sql_content))).
    { apply result_chars_ok; [reflexivity|].
      intros c _ Hc. apply negb_true_iff, N.eqb_neq. exact Hc. }
    unfold statements_of in Hall. rewrite Forall_forall in Hall.
    apply Hall. exact Hin.
Qed.

(** A statement with a marker in a literal and a block comment of one
    line, from an input with a full-line comment. *)
Lemma statement_resplits_witness :
  split_sql_queries (lit "SELECT '--' /* c; */ AS x" ++ [SEMI])
  = Ok [lit "SELECT '--' /* c; */ AS x"].
Proof.
  apply (statement_resplits
           (lit "-- header" ++ LF :: lit "SELECT '--' /* c; */ AS x;"
            ++ LF :: lit "  SELECT 2")
           [lit "SELECT '--' /* c; */ AS x"; lit "SELECT 2"]
           (lit "SELECT '--' /* c; */ AS x")).
  - vm_compute. reflexivity.
  - left. reflexivity.
  - vm_compute. reflexivity.
Defined.

(** * A delimiter inside a quoted literal *)





(** * The caller [run_trino_queries] *)

(** ** The paths of the result files *)

Lemma lit_inj s t : lit s = lit t -> s = t.
Proof.
  unfold lit. intros H.
  assert (E : forall l, map ascii_of_N (map N_of_ascii l) = l).
  { intros l. rewrite map_map. rewrite <- (map_id l) at 2.
    apply map_ext. apply ascii_N_embedding. }
  apply (f_equal (map ascii_of_N)) in H. rewrite !E in H.
  rewrite <- (string_of_list_ascii_of_string s),
          <- (string_of_list_ascii_of_string t), H.
  reflexivity.
Qed.

Lemma str_of_nat_inj i j : str_of_nat i = str_of_nat j -> i = j.
Proof.
  unfold str_of_nat. intros H. apply lit_inj in H.
  assert (E : Some (Nat.to_uint i) = Some (Nat.to_uint j))
    by (rewrite <- !NilEmpty.usu, H; reflexivity).
  inversion E as [E']. apply (f_equal Nat.of_uint) in E'.
  rewrite !Unsigned.of_to in E'. exact E'.
Qed.

Lemma path_join_inj a x y :
  startswith [SLASH] x = false -> startswith [SLASH] y = false ->
  path_join a x = path_join a y -> x = y.
Proof.
  unfold path_join. intros -> ->.
  destruct (negb (truthy a) || endswith_char SLASH a); intros H.
  - exact (app_inv_head _ _ _ H).
  - apply app_inv_head in H. inversion H. reflexivity.
Qed.

(** Two statements never share a result file. *)
Lemma output_file_inj output_dir i j :
  output_file output_dir i = output_file output_dir j -> i = j.
Proof.
  unfold output_file. intros H.
  apply path_join_inj in H; [|reflexivity|reflexivity].
  apply app_inv_head, app_inv_tail in H. apply str_of_nat_inj. exact H.
Qed.

(** The file of the final result is the result file of no statement. *)
Lemma output_file_not_final output_dir i :
  output_file output_dir i <> final_output output_dir.
Proof.
  unfold output_file, final_output. intros H.
  apply path_join_inj in H; [|reflexivity|reflexivity]. discriminate H.
Qed.

(** ** What an action list shows *)

Lemma executed_app (DataFrame : Type) (a b : list (action DataFrame)) :
  executed (a ++ b) = executed a ++ executed b.
Proof.
  induction a as [|x a IH]; [reflexivity|].
  destruct x; cbn [app executed]; rewrite IH; reflexivity.
Qed.

Lemma saved_paths_app (DataFrame : Type) (a b : list (action DataFrame)) :
  saved_paths (a ++ b) = saved_paths a ++ saved_paths b.
Proof.
  induction a as [|x a IH]; [reflexivity|].
  destruct x; cbn [app saved_paths]; rewrite IH; reflexivity.
Qed.

Lemma last_saved_app (DataFrame : Type) (a b : list (action DataFrame)) :
  forall before,
  last_saved (a ++ b) before = last_saved b (last_saved a before).
Proof.
  induction a as [|x a IH]; intros before; [reflexivity|].
  destruct x as [| | |df p [u|e]]; cbn [app last_saved]; apply IH.
Qed.

(** ** One statement *)

(** The ways an iteration can go: the engine raises, the save of the
    result file raises, or both return and, for the last statement, the
    save of the final file returns or raises. *)
Ltac run_query_cases :=
  unfold run_query; cbv zeta;
  repeat match goal with
    | |- context [execute_trino_query ?e ?t ?c ?q] =>
        destruct (execute_trino_query e t c q) as [?|[?|?]]
    | |- context [to_csv ?e ?t ?d ?p] =>
        destruct (to_csv e t d p) as [[]|[?|?]]
    | |- context [(?i =? ?n)%nat] =>
        let E := fresh "Elast" in
        destruct (i =? n)%nat eqn:E; [apply Nat.eqb_eq in E|clear E]
    end;
  cbn [fst snd caught app].

Lemma run_query_executed (DataFrame : Type) (env : outside DataFrame)
  c od n i query tr last_result :
  executed (fst (fst (run_query env c od n i query tr last_result))) = [query].
Proof. run_query_cases; reflexivity. Qed.

Lemma run_query_last_saved (DataFrame : Type) (env : outside DataFrame)
  c od n i query tr last_result :
  snd (fst (run_query env c od n i query tr last_result))
  = last_saved (fst (fst (run_query env c od n i query tr last_result)))
      last_result.
Proof. run_query_cases; reflexivity. Qed.

Lemma run_query_saved_paths (DataFrame : Type) (env : outside DataFrame)
  c od n i query tr last_result :
  let paths :=
    saved_paths (fst (fst (run_query env c od n i query tr last_result))) in
  paths = [] \/ paths = [output_file od i]
  \/ (i = n /\ paths = [output_file od i; final_output od]).
Proof.
  run_query_cases; cbn [saved_paths]; auto.
Qed.

Lemma run_query_caught (DataFrame : Type) (env : outside DataFrame)
  c od n i query tr last_result :
  only_exceptions env ->
  snd (run_query env c od n i query tr last_result) = None.
Proof.
  intros [He Hs]. unfold run_query. cbv zeta.
  destruct (execute_trino_query env _ c query) as [df|[m|m]] eqn:E1;
    [|reflexivity|exfalso; exact (He _ _ _ _ E1)].
  destruct (to_csv env _ df (output_file od i)) as [[]|[m|m]] eqn:E2;
    [|reflexivity|exfalso; exact (Hs _ _ _ _ E2)].
  destruct (i =? n); [|reflexivity].
  destruct (to_csv env _ df (final_output od)) as [[]|[m|m]] eqn:E3;
    [reflexivity|reflexivity|exfalso; exact (Hs _ _ _ _ E3)].
Qed.

Lemma run_query_final (DataFrame : Type) (env : outside DataFrame)
  c od n i query tr last_result df w :
  In (Saved df (final_output od) w)
     (fst (fst (run_query env c od n i query tr last_result))) ->
  i = n
  /\ exists a mid1 mid2 after,
       fst (fst (run_query env c od n i query tr last_result))
       = a ++ Executed c query (Returned df)
           :: mid1 ++ Saved df (output_file od n) (Returned tt)
           :: mid2 ++ Saved df (final_output od) w :: after
       /\ executed a = []
       /\ quiet mid1 /\ quiet mid2 /\ quiet after.
Proof.
  assert (Hne : forall d u, Saved df (final_output od) w
                            <> Saved d (output_file od i) u).
  { intros d u H. inversion H as [[E1 E2 E3]].
    exact (output_file_not_final od i (eq_sym E2)). }
  run_query_cases; cbn [In]; intros H;
    repeat match goal with
      | H : _ \/ _ |- _ => destruct H as [H|H]
      | H : False |- _ => contradiction
      | H : Logged _ _ = Saved _ _ _ |- _ => discriminate H
      | H : Executed _ _ _ = Saved _ _ _ |- _ => discriminate H
      | H : Saved _ (output_file _ _) _ = Saved _ (final_output _) _ |- _ =>
          exfalso; exact (Hne _ _ (eq_sym H))
      end;
    subst i; split; try reflexivity;
    inversion H; subst;
    eexists [_], [_], [_], _; (split; [reflexivity|]);
    unfold quiet; cbn [executed saved_paths]; auto 10.
Qed.

(** ** The loop *)

Section QueryLoop.
Variable DataFrame : Type.
Variable env : outside DataFrame.
Variable c : connection.
Variable output_dir : str.
Variable n : nat.

Lemma query_loop_cons i query queries' tr last_result :
  query_loop env c output_dir n i (query :: queries') tr last_result
  = match snd (run_query env c output_dir n i query tr last_result) with
    | Some e =>
        (fst (fst (run_query env c output_dir n i query tr last_result)),
         Raised e)
    | None =>
        (fst (fst (run_query env c output_dir n i query tr last_result))
         ++ fst (query_loop env c output_dir n (S i) queries'
                   (tr ++ fst (fst (run_query env c output_dir n i query tr
                                      last_result)))
                   (snd (fst (run_query env c output_dir n i query tr
                                last_result)))),
         snd (query_loop env c output_dir n (S i) queries'
                (tr ++ fst (fst (run_query env c output_dir n i query tr
                                   last_result)))
                (snd (fst (run_query env c output_dir n i query tr
                             last_result)))))
    end.
Proof.
  cbn [query_loop].
  destruct (run_query env c output_dir n i query tr last_result)
    as [[new last'] [e|]]; reflexivity.
Qed.

(** The statements submitted are the first statements of the list, and
    all of them when the loop comes to its end. *)
Lemma query_loop_executed queries : forall i tr last_result,
  (exists rest,
      queries
      = executed (fst (query_loop env c output_dir n i queries tr last_result))
        ++ rest)
  /\ (forall v,
         snd (query_loop env c output_dir n i queries tr last_result)
         = Returned v ->
         executed (fst (query_loop env c output_dir n i queries tr last_result))
         = queries).
Proof.
  induction queries as [|query queries' IH]; intros i tr last_result.
  - split; [exists []; reflexivity|reflexivity].
  - rewrite query_loop_cons.
    pose proof (run_query_executed DataFrame env c output_dir n i query tr
                  last_result) as E.
    destruct (snd (run_query env c output_dir n i query tr last_result)).
    + cbn [fst snd]. rewrite E. split; [exists queries'; reflexivity|].
      discriminate.
    + cbn [fst snd]. rewrite executed_app, E.
      destruct (IH (S i)
                  (tr ++ fst (fst (run_query env c output_dir n i query tr
                                     last_result)))
                  (snd (fst (run_query env c output_dir n i query tr
                               last_result)))) as [[rest Hr] Hv].
      split.
      * exists rest. cbn [app]. f_equal. exact Hr.
      * intros v Hret. cbn [app]. f_equal. exact (Hv v Hret).
Qed.

(** What the loop returns is the frame of the last save that returned. *)
Lemma query_loop_last_saved queries : forall i tr last_result v,
  snd (query_loop env c output_dir n i queries tr last_result) = Returned v ->
  v = last_saved (fst (query_loop env c output_dir n i queries tr last_result))
        last_result.
Proof.
  induction queries as [|query queries' IH]; intros i tr last_result v.
  - cbn. intros [= <-]. reflexivity.
  - rewrite query_loop_cons.
    pose proof (run_query_last_saved DataFrame env c output_dir n i query tr
                  last_result) as E.
    destruct (snd (run_query env c output_dir n i query tr last_result));
      cbn [fst snd]; [discriminate|].
    intros Hret. rewrite last_saved_app, <- E. apply IH. exact Hret.
Qed.

(** With nothing but instances of [Exception] raised, the loop comes to
    its end. *)
Lemma query_loop_returns queries : forall i tr last_result,
  only_exceptions env ->
  exists v,
    snd (query_loop env c output_dir n i queries tr last_result) = Returned v.
Proof.
  induction queries as [|query queries' IH]; intros i tr last_result Henv.
  - eexists. reflexivity.
  - rewrite query_loop_cons, run_query_caught by exact Henv.
    cbn [snd]. apply IH. exact Henv.
Qed.

(** The files written are the result files of the statements from [i] on,
    and the final file; none is written twice. *)
Lemma query_loop_saved_paths queries : forall i tr last_result,
  S n = i + length queries ->
  Forall (fun p => p = final_output output_dir
                   \/ exists k, i <= k /\ p = output_file output_dir k)
    (saved_paths (fst (query_loop env c output_dir n i queries tr last_result)))
  /\ NoDup (saved_paths
              (fst (query_loop env c output_dir n i queries tr last_result))).
Proof.
  induction queries as [|query queries' IH]; intros i tr last_result Hn.
  - cbn. split; constructor.
  - rewrite query_loop_cons.
    pose proof (run_query_saved_paths DataFrame env c output_dir n i query tr
                  last_result) as Hp. cbv zeta in Hp.
    assert (Hi : forall paths,
               paths = [] \/ paths = [output_file output_dir i]
               \/ (i = n /\ paths = [output_file output_dir i;
                                     final_output output_dir]) ->
               Forall (fun p => p = final_output output_dir
                                \/ exists k, i <= k
                                             /\ p = output_file output_dir k)
                 paths /\ NoDup paths).
    { intros paths [->|[->|[_ ->]]].
      - split; constructor.
      - split.
        + constructor; [right; exists i; auto|constructor].
        + constructor; [intros []|constructor].
      - split.
        + constructor; [right; exists i; auto|].
          constructor; [left; reflexivity|constructor].
        + constructor.
          * intros [H|[]].
            exact (output_file_not_final output_dir i (eq_sym H)).
          * constructor; [intros []|constructor]. }
    destruct (snd (run_query env c output_dir n i query tr last_result));
      cbn [fst]; [apply Hi; exact Hp|].
    rewrite saved_paths_app. cbn [length] in Hn.
    destruct (IH (S i)
                (tr ++ fst (fst (run_query env c output_dir n i query tr
                                   last_result)))
                (snd (fst (run_query env c output_dir n i query tr
                             last_result)))) as [IH1 IH2]; [lia|].
    destruct Hp as [Hp|[Hp|[Hlast Hp]]]; rewrite Hp.
    + cbn [app]. split; [|exact IH2].
      eapply Forall_impl; [|exact IH1]. cbn beta.
      intros p [H|(k & Hk & H)]; [auto|right; exists k; split; [lia|exact H]].
    + cbn [app]. split.
      * constructor; [right; exists i; auto|].
        eapply Forall_impl; [|exact IH1]. cbn beta.
        intros p [H|(k & Hk & H)]; [auto|right; exists k; split; [lia|exact H]].
      * constructor; [|exact IH2]. intros Hin.
        rewrite Forall_forall in IH1. destruct (IH1 _ Hin) as [H|(k & Hk & H)].
        -- exact (output_file_not_final output_dir i H).
        -- apply output_file_inj in H. lia.
    + assert (queries' = []) by (destruct queries'; [reflexivity|cbn in Hn; lia]).
      subst queries'. cbn [query_loop fst saved_paths]. rewrite app_nil_r.
      apply Hi. auto.
Qed.

Lemma query_loop_final queries : forall i tr last_result df w,
  S n = i + length queries ->
  In (Saved df (final_output output_dir) w)
     (fst (query_loop env c output_dir n i queries tr last_result)) ->
  exists before query mid1 mid2 after,
    fst (query_loop env c output_dir n i queries tr last_result)
    = before ++ Executed c query (Returned df)
        :: mid1 ++ Saved df (output_file output_dir n) (Returned tt)
        :: mid2 ++ Saved df (final_output output_dir) w :: after
    /\ queries = executed before ++ [query]
    /\ quiet mid1 /\ quiet mid2 /\ quiet after.
Proof.
  induction queries as [|query queries' IH]; intros i tr last_result df w Hn.
  - cbn. intros [].
  - rewrite query_loop_cons. cbn [length] in Hn.
    pose proof (run_query_final DataFrame env c output_dir n i query tr
                  last_result df w) as Hf.
    pose proof (run_query_executed DataFrame env c output_dir n i query tr
                  last_result) as He.
    assert (Hhere :
              In (Saved df (final_output output_dir) w)
                 (fst (fst (run_query env c output_dir n i query tr
                              last_result))) ->
              exists before query0 mid1 mid2 after,
                fst (fst (run_query env c output_dir n i query tr last_result))
                = before ++ Executed c query0 (Returned df)
                    :: mid1 ++ Saved df (output_file output_dir n) (Returned tt)
                    :: mid2 ++ Saved df (final_output output_dir) w :: after
                /\ query :: queries' = executed before ++ [query0]
                /\ quiet mid1 /\ quiet mid2 /\ quiet after).
    { intros Hin.
      destruct (Hf Hin) as (Hlast & a & m1 & m2 & af & E & Ha & H1 & H2 & H3).
      assert (queries' = [])
        by (destruct queries'; [reflexivity|cbn in Hn; lia]).
      subst queries'. exists a, query, m1, m2, af. rewrite Ha. auto. }
    destruct (snd (run_query env c output_dir n i query tr last_result));
      cbn [fst]; [exact Hhere|].
    intros Hin. apply in_app_or in Hin. destruct Hin as [Hin|Hin].
    + destruct (Hhere Hin)
        as (before & q0 & m1 & m2 & af & E & Hq & H1 & H2 & H3).
      assert (queries' = [])
        by (destruct (Hf Hin) as [Hl _];
            destruct queries'; [reflexivity|cbn in Hn; lia]).
      subst queries'. cbn [query_loop fst]. rewrite app_nil_r.
      exists before, q0, m1, m2, af. auto.
    + destruct (IH (S i) _ _ df w ltac:(lia) Hin)
        as (before & q0 & m1 & m2 & af & E & Hq & H1 & H2 & H3).
      rewrite E.
      exists (fst (fst (run_query env c output_dir n i query tr last_result))
              ++ before), q0, m1, m2, af.
      rewrite <- app_assoc, executed_app, He, Hq. auto.
Qed.

End QueryLoop.

(** ** [run_trino_queries] *)

Lemma run_trino_queries_returned (DataFrame : Type) (env : outside DataFrame)
  query_file c output_dir tr new r :
  run_trino_queries env query_file c output_dir tr = (new, r) ->
  In r (match r with Returned _ => [r] | Raised _ => [] end) ->
  exists sql_content,
    open_read env tr queries_sql = Returned sql_content
    /\ new = Opened queries_sql (Returned sql_content)
             :: fst (query_loop env c output_dir
                       (length (finish (run sql_content))) 1
                       (finish (run sql_content))
                       (tr ++ [Opened queries_sql (Returned sql_content)])
                       None)
    /\ r = snd (query_loop env c output_dir
                  (length (finish (run sql_content))) 1
                  (finish (run sql_content))
                  (tr ++ [Opened queries_sql (Returned sql_content)])
                  None).
Proof.
  unfold run_trino_queries.
  destruct (open_read env tr queries_sql) as [sql_content|e].
  - rewrite split_sql_queries_run. cbn [app]. intros [= <- <-] _.
    exists sql_content. auto.
  - intros [= <- <-]. intros [].
Qed.

Lemma run_trino_queries_unfold (DataFrame : Type) (env : outside DataFrame)
  query_file c output_dir tr sql_content :
  open_read env tr queries_sql = Returned sql_content ->
  run_trino_queries env query_file c output_dir tr
  = (Opened queries_sql (Returned sql_content)
       :: fst (query_loop env c output_dir
                 (length (finish (run sql_content))) 1
                 (finish (run sql_content))
                 (tr ++ [Opened queries_sql (Returned sql_content)]) None),
     snd (query_loop env c output_dir
            (length (finish (run sql_content))) 1
            (finish (run sql_content))
            (tr ++ [Opened queries_sql (Returned sql_content)]) None)).
Proof.
  intros E. unfold run_trino_queries. rewrite E, split_sql_queries_run.
  reflexivity.
Qed.

(** X10: when [run_trino_queries] returns, the statements it has
    submitted to the engine are the statements of the script, each once
    and in their order, whatever failed on the way. *)
Theorem every_statement_submitted (DataFrame : Type) (env : outside DataFrame)
  (query_file : str) (c : connection) (output_dir : str)
  (tr new : list (action DataFrame)) (v : option DataFrame) :
  run_trino_queries env query_file c output_dir tr = (new, Returned v) ->
  exists sql_content : str,
    open_read env tr queries_sql = Returned sql_content
    /\ split_sql_queries sql_content = Ok (executed new).
Proof.
  intros H.
  destruct (run_trino_queries_returned _ _ _ _ _ _ _ _ H (or_introl eq_refl))
    as (sql_content & Ho & -> & Hr).
  exists sql_content. split; [exact Ho|].
  rewrite split_sql_queries_run. f_equal. cbn [executed]. symmetry.
  eapply (proj2 (query_loop_executed _ _ _ _ _ _ _ _ _)). symmetry. exact Hr.
Qed.

Lemma every_statement_submitted_witness :
  exists sql_content : str,
    open_read sample_outside [] queries_sql = Returned sql_content
    /\ split_sql_queries sql_content
       = Ok (executed
               (fst (run_trino_queries sample_outside (lit "sql/queries.sql")
                       sample_connection (lit "out") []))).
Proof.
  apply (every_statement_submitted nat sample_outside (lit "sql/queries.sql")
           sample_connection (lit "out") [] _ (Some 1)).
  vm_compute. reflexivity.
Defined.

(** X11: a statement that fails does not stop the run.  When the script
    can be read and the engine and the saves raise nothing but instances
    of [Exception], [run_trino_queries] returns. *)
Theorem failures_do_not_stop_the_run
  (DataFrame : Type) (env : outside DataFrame)
  (query_file : str) (c : connection) (output_dir : str)
  (tr : list (action DataFrame)) (sql_content : str) :
  only_exceptions env ->
  open_read env tr queries_sql = Returned sql_content ->
  exists v : option DataFrame,
    snd (run_trino_queries env query_file c output_dir tr) = Returned v.
Proof.
  intros Henv Ho. rewrite (run_trino_queries_unfold _ _ _ _ _ _ _ Ho).
  cbn [snd]. apply query_loop_returns. exact Henv.
Qed.

Lemma sample_outside_only_exceptions : only_exceptions sample_outside.
Proof.
  split.
  - intros tr c q msg. unfold sample_outside. cbn [execute_trino_query].
    destruct (str_eqb q (lit "SELECT 1")); discriminate.
  - intros tr df p msg. discriminate.
Qed.

Lemma failures_do_not_stop_the_run_witness :
  exists v : option nat,
    snd (run_trino_queries sample_outside (lit "sql/queries.sql")
           sample_connection (lit "out") [])
    = Returned v.
Proof.
  apply (failures_do_not_stop_the_run nat sample_outside
           (lit "sql/queries.sql") sample_connection (lit "out") []
           (lit "SELECT 1; DROP t; SELECT 3;")).
  - exact sample_outside_only_exceptions.
  - reflexivity.
Defined.

(** X12: what [run_trino_queries] returns is the frame of the last save
    that returned, [None] if no save did: when the last statement fails,
    the result of an earlier statement is returned. *)
Theorem returns_last_saved_frame (DataFrame : Type) (env : outside DataFrame)
  (query_file : str) (c : connection) (output_dir : str)
  (tr new : list (action DataFrame)) (v : option DataFrame) :
  run_trino_queries env query_file c output_dir tr = (new, Returned v) ->
  v = last_saved new None.
Proof.
  intros H.
  destruct (run_trino_queries_returned _ _ _ _ _ _ _ _ H (or_introl eq_refl))
    as (sql_content & Ho & -> & Hr).
  cbn [last_saved]. apply query_loop_last_saved. symmetry. exact Hr.
Qed.

Lemma returns_last_saved_frame_witness :
  Some 1
  = last_saved (fst (run_trino_queries sample_outside (lit "sql/queries.sql")
                       sample_connection (lit "out") []))
      None.
Proof.
  apply (returns_last_saved_frame nat sample_outside (lit "sql/queries.sql")
           sample_connection (lit "out") []).
  vm_compute. reflexivity.
Defined.

(** X13: the final file is the last thing saved, and it is of the last
    statement of the script.  When [final_query_result.csv] is saved, the
    actions of the run are, in this order: the execution of the last
    statement, which returned the frame saved; then, nothing being
    submitted or saved in between, the save of that statement's own
    numbered result file, which returned; then, again with nothing in
    between, the save of the final file; and nothing is submitted or
    saved after it.  When the last statement fails there is no final
    file, whatever is returned. *)
Theorem final_file_is_of_last_statement
  (DataFrame : Type) (env : outside DataFrame)
  (query_file : str) (c : connection) (output_dir : str)
  (tr new : list (action DataFrame)) (r : outcome (option DataFrame))
  (df : DataFrame) (w : outcome unit) :
  run_trino_queries env query_file c output_dir tr = (new, r) ->
  In (Saved df (final_output output_dir) w) new ->
  exists (sql_content : str) (queries : list str)
         (before : list (action DataFrame)) (query : str)
         (mid1 mid2 after : list (action DataFrame)),
    open_read env tr queries_sql = Returned sql_content
    /\ split_sql_queries sql_content = Ok queries
    /\ new = before ++ Executed c query (Returned df)
               :: mid1 ++ Saved df (output_file output_dir (length queries))
                            (Returned tt)
               :: mid2 ++ Saved df (final_output output_dir) w :: after
    /\ queries = executed before ++ [query]
    /\ quiet mid1 /\ quiet mid2 /\ quiet after.
Proof.
  unfold run_trino_queries.
  destruct (open_read env tr queries_sql) as [sql_content|e] eqn:Ho.
  - rewrite split_sql_queries_run. cbn [app fst snd]. intros [= <- <-] Hin.
    destruct Hin as [Hin|Hin]; [discriminate Hin|].
    destruct (query_loop_final DataFrame env c output_dir
                (length (finish (run sql_content)))
                (finish (run sql_content)) 1 _ None df w eq_refl Hin)
      as (before & query & m1 & m2 & af & E & Hq & H1 & H2 & H3).
    exists sql_content, (finish (run sql_content)),
           (Opened queries_sql (Returned sql_content) :: before), query,
           m1, m2, af.
    rewrite E. split; [reflexivity|].
    split; [apply split_sql_queries_run|]. auto.
  - intros [= <- <-] [Hin|[]]. discriminate Hin.
Qed.

(** X14: no file is written twice in a run: the paths given to [to_csv]
    are pairwise different, so no result overwrites another one. *)
Theorem no_file_written_twice (DataFrame : Type) (env : outside DataFrame)
  (query_file : str) (c : connection) (output_dir : str)
  (tr : list (action DataFrame)) :
  NoDup (saved_paths (fst (run_trino_queries env query_file c output_dir tr))).
Proof.
  unfold run_trino_queries.
  destruct (open_read env tr queries_sql) as [sql_content|e];
    [|constructor].
  rewrite split_sql_queries_run. cbn [app fst saved_paths].
  apply query_loop_saved_paths. reflexivity.
Qed.

(** X13, tried on an outside where the last statement is accepted. *)
Lemma final_file_is_of_last_statement_witness :
  exists (sql_content : str) (queries : list str)
         (before : list (action nat)) (query : str)
         (mid1 mid2 after : list (action nat)),
    open_read accepting_outside [] queries_sql = Returned sql_content
    /\ split_sql_queries sql_content = Ok queries
    /\ fst (run_trino_queries accepting_outside (lit "sql/queries.sql")
              sample_connection (lit "out") [])
       = before ++ Executed sample_connection query (Returned 8)
           :: mid1 ++ Saved 8 (output_file (lit "out") (length queries))
                        (Returned tt)
           :: mid2 ++ Saved 8 (final_output (lit "out")) (Returned tt) :: after
    /\ queries = executed before ++ [query]
    /\ quiet mid1 /\ quiet mid2 /\ quiet after.
Proof.
  apply (final_file_is_of_last_statement nat accepting_outside
           (lit "sql/queries.sql") sample_connection (lit "out") []
           _ (Returned (Some 8)) 8 (Returned tt)).
  - vm_compute. reflexivity.
  - vm_compute. repeat first [left; reflexivity|right].
Defined.

(** * The command-line [main] *)

Ltac cli_run_query_cases :=
  unfold cli_run_query; cbv zeta;
  repeat match goal with
    | |- context [cli_execute_trino_query ?e ?t ?c ?q] =>
        destruct (cli_execute_trino_query e t c q) as [?|[?|?]]
    | |- context [if truthy_opt ?o then _ else _] =>
        destruct (truthy_opt o)
    | |- context [cli_to_csv ?e ?t ?d ?p] =>
        destruct (cli_to_csv e t d p) as [[]|[?|?]]
    end;
  cbn [fst snd cli_caught app].

Lemma cli_executed_app (DataFrame : Type) (a b : list (cli_action DataFrame)) :
  cli_executed (a ++ b) = cli_executed a ++ cli_executed b.
Proof.
  induction a as [|x a IH]; [reflexivity|].
  destruct x; cbn [app cli_executed]; rewrite IH; reflexivity.
Qed.

Lemma cli_saved_paths_app (DataFrame : Type) (a b : list (cli_action DataFrame)) :
  cli_saved_paths (a ++ b) = cli_saved_paths a ++ cli_saved_paths b.
Proof.
  induction a as [|x a IH]; [reflexivity|].
  destruct x; cbn [app cli_saved_paths]; rewrite IH; reflexivity.
Qed.

Lemma cli_output_file_inj output n i j :
  1 < n -> cli_output_file output n i = cli_output_file output n j -> i = j.
Proof.
  intros Hn. unfold cli_output_file. apply Nat.ltb_lt in Hn. rewrite Hn.
  intros H. apply app_inv_head, app_inv_head, app_inv_tail in H.
  apply str_of_nat_inj. exact H.
Qed.

Section CliLoop.
Variable DataFrame : Type.
Variable env : cli_outside DataFrame.
Variable args : arguments.
Variable n : nat.

Lemma cli_run_query_executed i query tr :
  cli_executed (fst (cli_run_query env args n i query tr)) = [query].
Proof. cli_run_query_cases; reflexivity. Qed.

Lemma cli_run_query_saved_paths i query tr :
  let paths := cli_saved_paths (fst (cli_run_query env args n i query tr)) in
  paths = []
  \/ paths = [cli_output_file (str_of_opt (args_output args)) n i].
Proof. cli_run_query_cases; cbn [cli_saved_paths]; auto. Qed.

Lemma cli_query_loop_cons i query queries' tr :
  cli_query_loop env args n i (query :: queries') tr
  = match snd (cli_run_query env args n i query tr) with
    | Some e => (fst (cli_run_query env args n i query tr), Raised e)
    | None =>
        (fst (cli_run_query env args n i query tr)
         ++ fst (cli_query_loop env args n (S i) queries'
                   (tr ++ fst (cli_run_query env args n i query tr))),
         snd (cli_query_loop env args n (S i) queries'
                (tr ++ fst (cli_run_query env args n i query tr))))
    end.
Proof.
  cbn [cli_query_loop].
  destruct (cli_run_query env args n i query tr) as [new [e|]]; reflexivity.
Qed.

Lemma cli_query_loop_executed queries : forall i tr,
  snd (cli_query_loop env args n i queries tr) = Returned tt ->
  cli_executed (fst (cli_query_loop env args n i queries tr)) = queries.
Proof.
  induction queries as [|query queries' IH]; intros i tr; [reflexivity|].
  rewrite cli_query_loop_cons.
  pose proof (cli_run_query_executed i query tr) as E.
  destruct (snd (cli_run_query env args n i query tr)); cbn [fst snd];
    [discriminate|].
  intros Hr. rewrite cli_executed_app, E, (IH _ _ Hr). reflexivity.
Qed.

Lemma cli_query_loop_saved_paths queries : forall i tr,
  1 <= i -> S n = i + length queries ->
  Forall (fun p => exists k, i <= k
                    /\ p = cli_output_file (str_of_opt (args_output args)) n k)
    (cli_saved_paths (fst (cli_query_loop env args n i queries tr)))
  /\ NoDup (cli_saved_paths (fst (cli_query_loop env args n i queries tr))).
Proof.
  induction queries as [|query queries' IH]; intros i tr Hi Hn.
  - cbn. split; constructor.
  - rewrite cli_query_loop_cons. cbn [length] in Hn.
    pose proof (cli_run_query_saved_paths i query tr) as Hp. cbv zeta in Hp.
    assert (Hone : forall paths,
               paths = []
               \/ paths = [cli_output_file (str_of_opt (args_output args)) n i] ->
               Forall (fun p => exists k, i <= k
                         /\ p = cli_output_file
                                  (str_of_opt (args_output args)) n k) paths
               /\ NoDup paths).
    { intros paths [-> | ->].
      - split; constructor.
      - split.
        + constructor; [exists i; auto|constructor].
        + constructor; [intros []|constructor]. }
    destruct (snd (cli_run_query env args n i query tr)); cbn [fst];
      [apply Hone; exact Hp|].
    rewrite cli_saved_paths_app.
    destruct (IH (S i) (tr ++ fst (cli_run_query env args n i query tr)))
      as [IH1 IH2]; [lia|lia|].
    assert (IH1' :
              Forall (fun p => exists k, i <= k
                        /\ p = cli_output_file
                                 (str_of_opt (args_output args)) n k)
                (cli_saved_paths
                   (fst (cli_query_loop env args n (S i) queries'
                           (tr ++ fst (cli_run_query env args n i query tr)))))).
    { eapply Forall_impl; [|exact IH1]. cbn beta.
      intros p (k & Hk & H). exists k. split; [lia|exact H]. }
    destruct Hp as [Hp|Hp]; rewrite Hp; cbn [app]; [split; assumption|].
    split; [constructor; [exists i; auto|exact IH1']|].
    constructor; [|exact IH2]. intros Hin.
    rewrite Forall_forall in IH1. destruct (IH1 _ Hin) as (k & Hk & H).
    destruct queries' as [|q' queries'].
    + cbn in Hin. exact Hin.
    + cbn [length] in Hn. apply cli_output_file_inj in H; lia.
Qed.

End CliLoop.

(** X15: when the command-line [main] returns, what it has submitted to
    the engine is, each once and in order, the statements of the file
    given by [--query-file], or else the text given by [--query] as it
    is, not split, whatever [;] it holds. *)
Theorem cli_submits_every_statement
  (DataFrame : Type) (env : cli_outside DataFrame) (args : arguments)
  (tr new : list (cli_action DataFrame)) :
  cli_main env args tr = (new, Returned tt) ->
  (truthy_opt (args_query_file args) = true ->
   exists (sql_content : str) (queries : list str),
     cli_open_read env tr (str_of_opt (args_query_file args))
     = Returned sql_content
     /\ split_sql_queries sql_content = Ok queries
     /\ cli_executed new = map Some queries)
  /\ (truthy_opt (args_query_file args) = false ->
      cli_executed new = [args_query args]).
Proof.
  unfold cli_main. destruct (truthy_opt (args_query_file args)).
  - destruct (cli_open_read env tr (str_of_opt (args_query_file args)))
      as [sql_content|e]; [|discriminate].
    rewrite split_sql_queries_run. cbn [app]. intros [= <- Hr].
    split; [|discriminate]. intros _.
    exists sql_content, (finish (run sql_content)).
    split; [reflexivity|]. split; [apply split_sql_queries_run|].
    cbn [cli_executed]. apply cli_query_loop_executed. exact Hr.
  - intros H. split; [discriminate|]. intros _.
    rewrite <- (cli_query_loop_executed DataFrame env args 1
                  [args_query args] 1 tr);
      rewrite H; reflexivity.
Qed.

(** X16: the command-line [main] writes no file twice; and when the
    query comes from [--query] the only file it can write is the one
    named by [--output], as it is named. *)
Theorem cli_result_files
  (DataFrame : Type) (env : cli_outside DataFrame) (args : arguments)
  (tr : list (cli_action DataFrame)) :
  NoDup (cli_saved_paths (fst (cli_main env args tr)))
  /\ (truthy_opt (args_query_file args) = false ->
      forall p, In p (cli_saved_paths (fst (cli_main env args tr))) ->
                args_output args = Some p).
Proof.
  unfold cli_main. destruct (truthy_opt (args_query_file args)).
  - split; [|discriminate].
    destruct (cli_open_read env tr (str_of_opt (args_query_file args)))
      as [sql_content|e]; [|constructor].
    rewrite split_sql_queries_run. cbn [app fst cli_saved_paths].
    apply cli_query_loop_saved_paths; [lia|].
    rewrite length_map. reflexivity.
  - split;
      [apply cli_query_loop_saved_paths; [lia|reflexivity]|].
    intros _ p. rewrite cli_query_loop_cons.
    assert (Hp : forall q, In q (cli_saved_paths
                                   (fst (cli_run_query env args 1 1
                                           (args_query args) tr))) ->
                           args_output args = Some q).
    { intros q. unfold cli_run_query; cbv zeta.
      destruct (args_output args) as [output|]; cbn [truthy_opt str_of_opt];
        repeat match goal with
          | |- context [cli_execute_trino_query ?e ?t ?c ?o] =>
              destruct (cli_execute_trino_query e t c o) as [?|[?|?]]
          | |- context [if truthy ?o then _ else _] => destruct (truthy o)
          | |- context [cli_to_csv ?e ?t ?d ?f] =>
              destruct (cli_to_csv e t d f) as [[]|[?|?]]
          end;
        cbn [fst snd cli_caught app cli_saved_paths In]; try tauto;
        intros [<-|[]]; reflexivity. }
    destruct (snd (cli_run_query env args 1 1 (args_query args) tr));
      cbn [fst cli_query_loop]; [apply Hp|].
    rewrite app_nil_r. apply Hp.
Qed.

(** X15, tried on a file of three statements, the second rejected. *)
Lemma cli_submits_every_statement_witness :
  (truthy_opt (args_query_file sample_file_arguments) = true ->
   exists (sql_content : str) (queries : list str),
     cli_open_read sample_cli_outside []
       (str_of_opt (args_query_file sample_file_arguments))
     = Returned sql_content
     /\ split_sql_queries sql_content = Ok queries
     /\ cli_executed (fst (cli_main sample_cli_outside sample_file_arguments []))
        = map Some queries)
  /\ (truthy_opt (args_query_file sample_file_arguments) = false ->
      cli_executed (fst (cli_main sample_cli_outside sample_file_arguments []))
      = [args_query sample_file_arguments]).
Proof.
  apply (cli_submits_every_statement nat sample_cli_outside
           sample_file_arguments []).
  vm_compute. reflexivity.
Defined.

(** X16, tried on a query given on the command line. *)
Lemma cli_result_files_witness :
  NoDup (cli_saved_paths
           (fst (cli_main sample_cli_outside sample_query_arguments [])))
  /\ forall p,
      In p (cli_saved_paths
              (fst (cli_main sample_cli_outside sample_query_arguments []))) ->
      args_output sample_query_arguments = Some p.
Proof.
  destruct (cli_result_files nat sample_cli_outside sample_query_arguments [])
    as [H1 H2].
  split; [exact H1|]. apply H2. vm_compute. reflexivity.
Defined.

(** * The engine call [execute_trino_query] *)

Ltac trino_cases :=
  unfold Trino.execute_trino_query, Trino.try_body; cbv zeta;
  repeat match goal with
    | |- context [Trino.connect ?e ?t ?c] =>
        destruct (Trino.connect e t c) as [[]|?]
    | |- context [Trino.cursor ?e ?t] =>
        destruct (Trino.cursor e t) as [[]|?]
    | |- context [Trino.execute ?e ?t ?q] =>
        destruct (Trino.execute e t q) as [[]|?]
    | |- context [Trino.fetchall ?e ?t] =>
        destruct (Trino.fetchall e t) as [?|?]
    | |- context [Trino.description ?e ?t] =>
        destruct (Trino.description e t) as [[|? ?]|]
    | |- context [Trino.column_names ?e ?l] =>
        destruct (Trino.column_names e l) as [?|?]
    | |- context [Trino.DataFrame_of ?e ?r ?n] =>
        destruct (Trino.DataFrame_of e r n) as [?|?]
    | |- context [Trino.close ?e ?t] =>
        destruct (Trino.close e t) as [[]|?]
    end;
  cbn [fst snd].

(** X17: once [conn.cursor()] has handed out a cursor,
    [execute_trino_query] calls [conn.close()] exactly once, as the last
    thing it does, however the query went. *)
Theorem connection_closed_last
  (Rows Column DataFrame : Type) (env : Trino.client Rows Column DataFrame)
  (tr : list (Trino.call Rows)) (c : connection) (sql_query : option str) :
  Trino.has_cursor (fst (Trino.execute_trino_query env tr c sql_query)) = true ->
  exists (before : list (Trino.call Rows)) (r : outcome unit),
    fst (Trino.execute_trino_query env tr c sql_query)
    = before ++ [Trino.Close r]
    /\ Trino.closes before = 0.
Proof.
  trino_cases; intros H; cbn [app Trino.has_cursor] in H;
    try discriminate H; clear H;
    (eexists _, _; split; reflexivity).
Qed.

(** X17, tried on a client whose calls all succeed. *)
Lemma connection_closed_last_witness :
  exists (before : list (Trino.call nat)) (r : outcome unit),
    fst (Trino.execute_trino_query Trino.sample_client [] sample_connection
           (Some (lit "SELECT 1")))
    = before ++ [Trino.Close r]
    /\ Trino.closes before = 0.
Proof.
  apply (connection_closed_last nat str nat Trino.sample_client []
           sample_connection (Some (lit "SELECT 1"))).
  vm_compute. reflexivity.
Defined.

(** X18: when [trino.dbapi.connect] has handed out a connection and
    [conn.cursor()] then raises, [execute_trino_query] raises too and
    never calls [conn.close()]: the connection is left open, the
    [try ... finally] starting only after the cursor is made. *)
Theorem connection_left_open
  (Rows Column DataFrame : Type) (env : Trino.client Rows Column DataFrame)
  (tr : list (Trino.call Rows)) (c : connection) (sql_query : option str)
  (e : raised) :
  Trino.connect env tr c = Returned tt ->
  Trino.cursor env (tr ++ [Trino.Connect c (Returned tt)]) = Raised e ->
  Trino.execute_trino_query env tr c sql_query
  = ([Trino.Connect c (Returned tt); Trino.Cursor (Raised e)], Raised e)
  /\ Trino.connected (fst (Trino.execute_trino_query env tr c sql_query)) = true
  /\ Trino.closes (fst (Trino.execute_trino_query env tr c sql_query)) = 0.
Proof.
  intros H0 H1. unfold Trino.execute_trino_query. cbv zeta.
  rewrite H0, H1. cbn. auto.
Qed.

(** X18, tried on a client that makes no cursor. *)
Lemma connection_left_open_witness :
  Trino.execute_trino_query Trino.cursorless_client [] sample_connection
    (Some (lit "SELECT 1"))
  = ([Trino.Connect sample_connection (Returned tt);
      Trino.Cursor (Raised (Exception (lit "no cursor")))],
     Raised (Exception (lit "no cursor")))
  /\ Trino.connected
       (fst (Trino.execute_trino_query Trino.cursorless_client []
               sample_connection (Some (lit "SELECT 1")))) = true
  /\ Trino.closes
       (fst (Trino.execute_trino_query Trino.cursorless_client []
               sample_connection (Some (lit "SELECT 1")))) = 0.
Proof.
  apply (connection_left_open nat str nat Trino.cursorless_client []
           sample_connection (Some (lit "SELECT 1"))
           (Exception (lit "no cursor")));
    reflexivity.
Defined.

(** X19: [execute_trino_query] returns a frame only after exactly these
    calls, each of which returned: connect, cursor, execute of the query
    as it was given, fetchall, close; and the frame is the empty one
    when the cursor has no description, the fetched rows being dropped. *)
Theorem frame_after_every_call
  (Rows Column DataFrame : Type) (env : Trino.client Rows Column DataFrame)
  (tr : list (Trino.call Rows)) (c : connection) (sql_query : option str)
  (results_df : DataFrame) :
  snd (Trino.execute_trino_query env tr c sql_query) = Returned results_df ->
  exists rows : Rows,
    fst (Trino.execute_trino_query env tr c sql_query)
    = [Trino.Connect c (Returned tt); Trino.Cursor (Returned tt);
       Trino.Execute sql_query (Returned tt); Trino.Fetchall (Returned rows);
       Trino.Close (Returned tt)]
    /\ match Trino.description env
               (tr ++ [Trino.Connect c (Returned tt); Trino.Cursor (Returned tt);
                       Trino.Execute sql_query (Returned tt);
                       Trino.Fetchall (Returned rows)]) with
       | Some (desc :: descs) =>
           exists names,
             Trino.column_names env (desc :: descs) = Returned names
             /\ Trino.DataFrame_of env rows names = Returned results_df
       | _ => results_df = Trino.DataFrame_empty env
       end.
Proof.
  unfold Trino.execute_trino_query, Trino.try_body; cbv zeta.
  destruct (Trino.connect env tr c) as [[]|?]; [|discriminate].
  destruct (Trino.cursor env _) as [[]|?]; [|discriminate].
  destruct (Trino.execute env _ sql_query) as [[]|?].
  2:{ cbn [fst snd app]. destruct (Trino.close env _) as [[]|?]; discriminate. }
  destruct (Trino.fetchall env _) as [rows|?].
  2:{ cbn [fst snd app]. destruct (Trino.close env _) as [[]|?]; discriminate. }
  cbn [app]. rewrite <- !app_assoc. cbn [app].
  destruct (Trino.description env _) as [[|desc descs]|] eqn:D.
  - cbn [fst snd app]. destruct (Trino.close env _) as [[]|?];
      [|discriminate].
    cbn [snd fst]. intros [= <-]. exists rows. split; [reflexivity|]. rewrite D. reflexivity.
  - destruct (Trino.column_names env (desc :: descs)) as [names|?] eqn:N.
    2:{ cbn [fst snd app]. destruct (Trino.close env _) as [[]|?];
        discriminate. }
    cbn [fst snd app]. destruct (Trino.close env _) as [[]|?];
      [|discriminate].
    cbn [snd fst]. intros H. exists rows. split; [reflexivity|]. rewrite D.
    exists names. split; [exact N|exact H].
  - cbn [fst snd app]. destruct (Trino.close env _) as [[]|?];
      [|discriminate].
    cbn [snd fst]. intros [= <-]. exists rows. split; [reflexivity|]. rewrite D. reflexivity.
Qed.

(** X19, tried on a client whose calls all succeed. *)
Lemma frame_after_every_call_witness :
  exists rows : nat,
    fst (Trino.execute_trino_query Trino.sample_client [] sample_connection
           (Some (lit "SELECT 1")))
    = [Trino.Connect sample_connection (Returned tt);
       Trino.Cursor (Returned tt);
       Trino.Execute (Some (lit "SELECT 1")) (Returned tt);
       Trino.Fetchall (Returned rows); Trino.Close (Returned tt)]
    /\ match Trino.description Trino.sample_client
               ([] ++ [Trino.Connect sample_connection (Returned tt);
                       Trino.Cursor (Returned tt);
                       Trino.Execute (Some (lit "SELECT 1")) (Returned tt);
                       Trino.Fetchall (Returned rows)]) with
       | Some (desc :: descs) =>
           exists names,
             Trino.column_names Trino.sample_client (desc :: descs)
             = Returned names
             /\ Trino.DataFrame_of Trino.sample_client rows names = Returned 4
       | _ => 4 = Trino.DataFrame_empty Trino.sample_client
       end.
Proof.
  apply (frame_after_every_call nat str nat Trino.sample_client []
           sample_connection (Some (lit "SELECT 1")) 4).
  vm_compute. reflexivity.
Defined.
